(** * Monte Carlo analysis of diagnostic accuracy (amin_codes.py)

    A shallow embedding of [CDSSStatisticalAnalysis]: the accuracy model,
    the simulation loop over the process-global random generator, the
    statistics calculator and the sensitivity analyser.

    The program computes on Python/numpy floats.  Every function below is
    written once, over an interface [Num] of the arithmetic the source uses,
    and read at two instances:
    - [binary64]: IEEE-754 double precision (the kernel's primitive floats),
      which is what the interpreter executes, rounding and NaN included;
    - [xreal]: exact real arithmetic with one undefined value, which is
      the same computation without rounding ([None] stands for NaN).  *)

From Stdlib Require Import ZArith List Bool Reals Lra Lia Psatz Floats.
From Stdlib Require Import Sorting Permutation.
Import ListNotations.

#[local] Set Warnings "-inexact-float".

(** ** The arithmetic interface *)

Class Num (A : Type) : Type := {
  of_Z : Z -> A;                 (* int -> float conversion *)
  lit : Z -> positive -> A;      (* the decimal literal n/d, e.g. 0.01 = lit 1 100 *)
  nan : A;
  add : A -> A -> A;
  sub : A -> A -> A;
  mul : A -> A -> A;
  div : A -> A -> A;
  sqrt : A -> A;
  abs : A -> A;
  ltb : A -> A -> bool;
  leb : A -> A -> bool;
  eqb : A -> A -> bool;
  floor : A -> Z
}.

Declare Scope num_scope.
Delimit Scope num_scope with num.
Infix "+" := add : num_scope.
Infix "-" := sub : num_scope.
Infix "*" := mul : num_scope.
Infix "/" := div : num_scope.
Infix "<?" := ltb : num_scope.
Infix "<=?" := leb : num_scope.
Infix "=?" := eqb : num_scope.

(** x is NaN exactly when it differs from itself. *)
Definition is_nan {A} `{Num A} (x : A) : bool := negb (eqb x x).

(** ** Instance 1: IEEE-754 binary64 *)

Module B64.

Definition of_Z (z : Z) : float :=
  match z with
  | Z0 => PrimFloat.zero
  | Zpos _ => PrimFloat.of_uint63 (Uint63.of_Z z)
  | Zneg p => PrimFloat.opp (PrimFloat.of_uint63 (Uint63.of_Z (Zpos p)))
  end.

(** The double nearest to n/d: division of two exactly represented
    integers is correctly rounded, as is the parsing of the literal. *)
Definition lit (n : Z) (d : positive) : float :=
  PrimFloat.div (of_Z n) (of_Z (Zpos d)).

(** Largest integer not above x (0 for infinities and NaN). *)
Definition floor (x : float) : Z :=
  match Prim2SF x with
  | S754_finite s m e =>
      Z.shiftl (if s then Zneg m else Zpos m) e
  | _ => 0%Z
  end.

End B64.

#[export] Instance binary64 : Num float := {|
  of_Z := B64.of_Z;
  lit := B64.lit;
  nan := PrimFloat.nan;
  add := PrimFloat.add;
  sub := PrimFloat.sub;
  mul := PrimFloat.mul;
  div := PrimFloat.div;
  sqrt := PrimFloat.sqrt;
  abs := PrimFloat.abs;
  ltb := PrimFloat.ltb;
  leb := PrimFloat.leb;
  eqb := PrimFloat.eqb;
  floor := B64.floor
|}.

(** ** Instance 2: exact reals with an undefined value *)

Abbreviation xreal := (option R).

Module XR.

Definition lift2 (f : R -> R -> R) (x y : xreal) : xreal :=
  match x, y with
  | Some a, Some b => Some (f a b)
  | _, _ => None
  end.

(** Division by zero is undefined.  IEEE gives an infinity when the
    dividend is not zero; the one such quotient in this program is the
    1/(k-1) of [np_cov] at k <= 1, which is then multiplied by a zero or
    undefined dot product, so both readings end in the undefined value. *)
Definition div (x y : xreal) : xreal :=
  match x, y with
  | Some a, Some b => if Req_dec_T b 0 then None else Some (a / b)%R
  | _, _ => None
  end.

Definition sqrt (x : xreal) : xreal :=
  match x with
  | Some a => if Rlt_dec a 0 then None else Some (R_sqrt.sqrt a)
  | None => None
  end.

Definition test2 (P : R -> R -> Prop) (dec : forall a b, {P a b} + {~ P a b})
    (x y : xreal) : bool :=
  match x, y with
  | Some a, Some b => if dec a b then true else false
  | _, _ => false
  end.

Definition floor (x : xreal) : Z :=
  match x with
  | Some a => Int_part a
  | None => 0%Z
  end.

End XR.

#[export] Instance exact : Num xreal := {|
  of_Z := fun z => Some (IZR z);
  lit := fun n d => Some (IZR n / IZR (Zpos d))%R;
  nan := None;
  add := XR.lift2 Rplus;
  sub := XR.lift2 Rminus;
  mul := XR.lift2 Rmult;
  div := XR.div;
  sqrt := XR.sqrt;
  abs := option_map Rabs;
  ltb := XR.test2 Rlt Rlt_dec;
  leb := XR.test2 Rle Rle_dec;
  eqb := XR.test2 (@eq R) Req_dec_T;
  floor := XR.floor
|}.

(** ** The program *)

(** The process-global generator numpy.random draws from.  [G] is its
    state; every draw returns the value and the advanced state. *)
Class RandomSource (A G : Type) : Type := {
  random_uniform : A -> A -> G -> A * G;       (* np.random.uniform(lo, hi) *)
  random_randint : Z -> Z -> G -> Z * G;       (* np.random.randint(lo, hi) *)
  random_choice : list Z -> G -> Z * G;        (* np.random.choice(seq) *)
  random_exponential : A -> G -> A * G         (* np.random.exponential(scale) *)
}.

(** Exceptions.  [IndexError] is what indexing raises; the other two are
    the error kinds named for the calculator and the analyser, listed so
    that an outcome can be compared with them. *)
Inductive exn : Type := IndexError | EmptyResultSet | DegenerateSensitivity.

Inductive outcome (T : Type) : Type :=
| Returned (v : T)
| Raised (e : exn).
Arguments Returned {T} v.
Arguments Raised {T} e.

Section Program.

Context {A : Type} `{NA : Num A}.
Local Open Scope num_scope.

(** Python's two-argument [min]: the second argument only when it is
    strictly smaller. *)
Definition py_min (a b : A) : A := if b <? a then b else a.

(** Lines 34-38: the accuracy as a fraction. *)
Definition base_accuracy : A := lit 90 100.

Definition response_penalty (response_time : A) : A :=
  py_min (response_time / of_Z 10) (lit 1 10).

Definition accuracy_fraction (data_completeness : A) (symptom_clarity : Z)
    (workflow_variation : Z) (response_time : A) : A :=
  base_accuracy * data_completeness
  * (of_Z symptom_clarity / of_Z 5)
  * (of_Z 1 - of_Z workflow_variation * lit 1 100)
  * (of_Z 1 - response_penalty response_time).

(** Line 41: the value stored, converted to a percentage. *)
Definition accuracy_percent (data_completeness : A) (symptom_clarity : Z)
    (workflow_variation : Z) (response_time : A) : A :=
  accuracy_fraction data_completeness symptom_clarity workflow_variation
    response_time * of_Z 100.

(** [self.results]: five parallel lists. *)
Record Results : Type := mkResults {
  accuracy : list A;
  response_time : list A;
  data_completeness : list A;
  symptom_clarity : list Z;
  workflow_variation : list Z
}.

Record CDSSStatisticalAnalysis : Type := mkAnalysis {
  n_iterations : nat;
  results : Results
}.

(** [__init__] *)
Definition init : CDSSStatisticalAnalysis :=
  mkAnalysis (Z.to_nat 10000) (mkResults [] [] [] [] []).

Section Simulation.

Context {G : Type} `{RS : RandomSource A G}.

(** [range(8)] *)
Definition range (n : nat) : list Z := map Z.of_nat (seq 0 n).

(** One pass through the loop body (lines 28-45). *)
Definition iteration (r : Results) (g : G) : Results * G :=
  let (dc, g1) := random_uniform (lit 6 10) (of_Z 1) g in
  let (sc, g2) := random_randint 1 6 g1 in
  let (wv, g3) := random_choice (range 8) g2 in
  let (rt, g4) := random_exponential (of_Z 2) g3 in
  (mkResults (accuracy r ++ [accuracy_percent dc sc wv rt])
             (response_time r ++ [rt])
             (data_completeness r ++ [dc])
             (symptom_clarity r ++ [sc])
             (workflow_variation r ++ [wv]),
   g4).

Fixpoint iterations (n : nat) (r : Results) (g : G) : Results * G :=
  match n with
  | O => (r, g)
  | S n' => let (r', g') := iteration r g in iterations n' r' g'
  end.

(** [simulate_diagnostic_accuracy]: the object after the call (its
    [results] is also the value returned) and the generator state. *)
Definition simulate_diagnostic_accuracy (self : CDSSStatisticalAnalysis) (g : G)
    : CDSSStatisticalAnalysis * G :=
  let (r, g') := iterations (n_iterations self) (results self) g in
  (mkAnalysis (n_iterations self) r, g').

(** m calls in sequence on one object. *)
Fixpoint simulate_times (m : nat) (self : CDSSStatisticalAnalysis) (g : G)
    : CDSSStatisticalAnalysis * G :=
  match m with
  | O => (self, g)
  | S m' => let (self', g') := simulate_diagnostic_accuracy self g in
            simulate_times m' self' g'
  end.

End Simulation.

(** *** numpy and scipy routines the calculator calls *)

(** [np.sum]: accumulation from zero, left to right.  numpy adds fewer
    than eight doubles in exactly this order; longer arrays are added
    pairwise (and the dot product of [np.cov] goes through BLAS), so in the
    binary64 instance this is numpy's sum for short lists and equal to it
    up to rounding otherwise.  The exact instance does not depend on the
    order. *)
Definition np_sum (l : list A) : A := fold_left add l (of_Z 0).

Definition count (l : list A) : A := of_Z (Z.of_nat (length l)).

(** [np.mean] *)
Definition np_mean (l : list A) : A := np_sum l / count l.

Definition deviations (l : list A) : list A :=
  let m := np_mean l in map (fun x => x - m) l.

Definition squares (l : list A) : list A := map (fun d => d * d) l.

(** [np.var(a, ddof)]: squared deviations over max(k - ddof, 0). *)
Definition np_var (ddof : Z) (l : list A) : A :=
  np_sum (squares (deviations l))
  / of_Z (Z.max (Z.of_nat (length l) - ddof) 0).

(** [np.std(a, ddof)] *)
Definition np_std (ddof : Z) (l : list A) : A := sqrt (np_var ddof l).

(** [scipy.stats.sem(a)]: its default is ddof = 1. *)
Definition stats_sem (l : list A) : A := np_std 1 l / sqrt (count l).

Section Interval.

(** [scipy.special.ndtri], the standard normal quantile function. *)
Variable ndtri : A -> A.

(** [norm.ppf(q, loc, scale)]: the distribution machinery answers NaN for
    a scale that is not positive or a loc that is NaN.  (q is strictly
    between 0 and 1 at both call sites.) *)
Definition norm_ppf (q loc scale : A) : A :=
  if (of_Z 0 <? scale) && (loc =? loc) then ndtri q * scale + loc else nan.

(** [norm.interval(confidence, loc, scale)] *)
Definition norm_interval (confidence loc scale : A) : A * A :=
  let q1 := (of_Z 1 - confidence) / of_Z 2 in
  let q2 := (of_Z 1 + confidence) / of_Z 2 in
  (norm_ppf q1 loc scale, norm_ppf q2 loc scale).

End Interval.

(** a[i]: negative indices count from the end, anything outside raises. *)
Definition index (a : list A) (i : Z) : outcome A :=
  let n := Z.of_nat (length a) in
  let j := if (i <? 0)%Z then (i + n)%Z else i in
  if ((j <? 0) || (n <=? j))%Z then Raised IndexError
  else match nth_error a (Z.to_nat j) with
       | Some x => Returned x
       | None => Raised IndexError
       end.

Fixpoint insert_sorted (x : A) (l : list A) : list A :=
  match l with
  | [] => [x]
  | y :: l' => if x <=? y then x :: l else y :: insert_sorted x l'
  end.

(** Ascending order, for data without NaN (on data containing a NaN
    numpy's percentile is NaN). *)
Definition sort (l : list A) : list A := fold_right insert_sorted [] l.

(** numpy's interpolation between a and b at fraction t. *)
Definition lerp (a b t : A) : A :=
  let d := b - a in
  if lit 1 2 <=? t then b - d * (of_Z 1 - t) else a + d * t.

(** [np.percentile(a, q)], method 'linear'. *)
Definition np_percentile (l : list A) (q : Z) : outcome A :=
  let a := sort l in
  let n := Z.of_nat (length l) in
  let rank := (of_Z q / of_Z 100) * of_Z (n - 1) in
  let lo := floor rank in
  let hi := Z.min (lo + 1) (n - 1) in
  let gamma := rank - of_Z lo in
  match index a lo with
  | Raised e => Raised e
  | Returned x =>
      match index a hi with
      | Raised e => Raised e
      | Returned y => Returned (lerp x y gamma)
      end
  end.

(** [np.cov(x, y)[0,1]]: deviations' dot product times 1/(k - 1). *)
Definition dot (u v : list A) : A :=
  np_sum (map (fun p => fst p * snd p) (combine u v)).

Definition np_cov (x y : list A) : A :=
  dot (deviations x) (deviations y)
  * (of_Z 1 / of_Z (Z.max (Z.of_nat (length x) - 1) 0)).

(** [np.clip] *)
Definition np_clip (x lo hi : A) : A :=
  if x <? lo then lo else if hi <? x then hi else x.

(** [np.corrcoef(x, y)[0,1]] *)
Definition np_corrcoef (x y : list A) : A :=
  np_clip (np_cov x y / sqrt (np_cov x x) / sqrt (np_cov y y))
          (of_Z (-1)) (of_Z 1).

(** *** calculate_statistics *)

Record StatisticsReport : Type := mkReport {
  mean_accuracy : A;
  std_accuracy : A;
  ci_95 : A * A;
  percentile_99_response : A
}.

Definition calculate_statistics (ndtri : A -> A) (self : CDSSStatisticalAnalysis)
    : outcome StatisticsReport :=
  let accuracy_array := accuracy (results self) in
  let mean := np_mean accuracy_array in
  let std := np_std 0 accuracy_array in
  let ci := norm_interval ndtri (lit 95 100) (np_mean accuracy_array)
              (stats_sem accuracy_array) in
  match np_percentile (response_time (results self)) 99 with
  | Raised e => Raised e
  | Returned p => Returned (mkReport mean std ci p)
  end.

(** *** sensitivity_analysis *)

(** A dict over the four factor names, in insertion order. *)
Record Factors : Type := mkFactors {
  of_data_completeness : A;
  of_symptom_clarity : A;
  of_workflow_variation : A;
  of_response_time : A
}.

Definition values (d : Factors) : list A :=
  [of_data_completeness d; of_symptom_clarity d;
   of_workflow_variation d; of_response_time d].

Definition correlations (self : CDSSStatisticalAnalysis) : Factors :=
  let r := results self in
  mkFactors
    (np_corrcoef (data_completeness r) (accuracy r))
    (np_corrcoef (map of_Z (symptom_clarity r)) (accuracy r))
    (np_corrcoef (map of_Z (workflow_variation r)) (accuracy r))
    (np_corrcoef (response_time r) (accuracy r)).

(** Python's [sum] over the absolute values. *)
Definition total (c : Factors) : A := fold_left add (map abs (values c)) (of_Z 0).

Definition normalize (c : Factors) : Factors :=
  let t := total c in
  mkFactors (abs (of_data_completeness c) / t * of_Z 100)
            (abs (of_symptom_clarity c) / t * of_Z 100)
            (abs (of_workflow_variation c) / t * of_Z 100)
            (abs (of_response_time c) / t * of_Z 100).

Definition sensitivity_analysis (self : CDSSStatisticalAnalysis) : Factors :=
  normalize (correlations self).

End Program.

Arguments Results A : clear implicits.
Arguments CDSSStatisticalAnalysis A : clear implicits.
Arguments StatisticsReport A : clear implicits.
Arguments Factors A : clear implicits.


(** ** A concrete generator

    The simulation is run below on a small deterministic generator: its
    state is a counter, every draw reads the counter and advances it by
    one, and every value drawn lies in the domain of its distribution. *)

Module Counter.

Definition uniform (lo hi : float) (g : Z) : float * Z :=
  ((lo + (hi - lo) * (B64.of_Z (g mod 7) / 7))%float, (g + 1)%Z).

Definition randint (lo hi : Z) (g : Z) : Z * Z :=
  ((lo + g mod (hi - lo))%Z, (g + 1)%Z).

Definition choice (l : list Z) (g : Z) : Z * Z :=
  (nth (Z.to_nat (g mod Z.of_nat (length l))) l 0%Z, (g + 1)%Z).

Definition exponential (scale : float) (g : Z) : float * Z :=
  ((scale * (B64.of_Z (g mod 5) / 2))%float, (g + 1)%Z).

End Counter.

#[export] Instance counter_source : RandomSource float Z := {|
  random_uniform := Counter.uniform;
  random_randint := Counter.randint;
  random_choice := Counter.choice;
  random_exponential := Counter.exponential
|}.

(** Componentwise concatenation of two result sets. *)
Definition app_results {A} (r1 r2 : Results A) : Results A :=
  mkResults (accuracy r1 ++ accuracy r2)
            (response_time r1 ++ response_time r2)
            (data_completeness r1 ++ data_completeness r2)
            (symptom_clarity r1 ++ symptom_clarity r2)
            (workflow_variation r1 ++ workflow_variation r2).

Definition empty_results {A} : Results A := mkResults [] [] [] [] [].

(** All five lists have length n. *)
Definition lengths {A} (r : Results A) (n : nat) : Prop :=
  length (accuracy r) = n /\ length (response_time r) = n
  /\ length (data_completeness r) = n /\ length (symptom_clarity r) = n
  /\ length (workflow_variation r) = n.

(** A stand-in for the normal quantile function: the two quantiles the
    interval asks for, to six decimals. *)
Definition ndtri_table {A} `{Num A} (q : A) : A :=
  if ltb q (lit 1 2) then sub (of_Z 0) (lit 1959964 1000000)
  else lit 1959964 1000000.

(** The interval as the specification words it: mean -/+ z * std / sqrt k
    with the population deviation. *)
Definition population_ci_95 {A} `{Num A} (z : A) (l : list A) : A * A :=
  let half := div (mul z (np_std 0 l)) (sqrt (count l)) in
  (sub (np_mean l) half, add (np_mean l) half).

(** Three trials of the simulation on the counter generator. *)
Definition three_trials : CDSSStatisticalAnalysis float :=
  fst (simulate_diagnostic_accuracy (mkAnalysis 3 empty_results) 0%Z).

(** Two trials in exact arithmetic: the samples (0.6, 5, 0, 0) and
    (1.0, 4, 1, 2) with their accuracies 54 and 64.152. *)
Definition two_trials : CDSSStatisticalAnalysis xreal :=
  mkAnalysis 2
    (mkResults (map Some [54; 64152 / 1000]%R) (map Some [0; 2]%R)
               (map Some [6 / 10; 1]%R) [5; 4]%Z [0; 1]%Z).

(** Zero (of either sign) and the zero-or-NaN test. *)
Definition is_zero {A} `{Num A} (x : A) : bool := eqb x (of_Z 0).
Definition zero_or_nan {A} `{Num A} (x : A) : bool := is_zero x || is_nan x.

(** How zero and NaN propagate through the arithmetic: what the analysis
    of degenerate inputs needs from an instance. *)
Class NaNLaws (A : Type) `{Num A} : Prop := {
  zn_zero : zero_or_nan (of_Z 0) = true;
  zn_add : forall a b,
    zero_or_nan a = true -> zero_or_nan b = true -> zero_or_nan (add a b) = true;
  zn_mul_l : forall a b, zero_or_nan a = true -> zero_or_nan (mul a b) = true;
  zn_mul_r : forall a b, zero_or_nan b = true -> zero_or_nan (mul a b) = true;
  zn_div_l : forall a b, zero_or_nan a = true -> zero_or_nan (div a b) = true;
  zn_sqrt : forall a, zero_or_nan a = true -> zero_or_nan (sqrt a) = true;
  zn_div_zn : forall a b,
    zero_or_nan a = true -> zero_or_nan b = true -> is_nan (div a b) = true;
  nan_add_l : forall a b, is_nan a = true -> is_nan (add a b) = true;
  nan_add_r : forall a b, is_nan b = true -> is_nan (add a b) = true;
  nan_mul_l : forall a b, is_nan a = true -> is_nan (mul a b) = true;
  nan_div_l : forall a b, is_nan a = true -> is_nan (div a b) = true;
  nan_div_r : forall a b, is_nan b = true -> is_nan (div a b) = true;
  nan_abs : forall a, is_nan a = true -> is_nan (abs a) = true;
  nan_ltb_l : forall a b, is_nan a = true -> ltb a b = false;
  nan_ltb_r : forall a b, is_nan b = true -> ltb a b = false
}.

(** A factor is degenerate when every deviation from its mean is zero (or
    undefined): its variance is zero. *)
Definition degenerate {A} `{Num A} (x : list A) : Prop :=
  Forall (fun d => zero_or_nan d = true) (deviations x).

Definition all_nan {A} `{Num A} (d : Factors A) : Prop :=
  Forall (fun v => is_nan v = true) (values d).

(** Two trials in which symptom_clarity is constant. *)
Definition constant_clarity : CDSSStatisticalAnalysis float :=
  mkAnalysis 2
    (mkResults [accuracy_percent 0.7 3 1 0.5; accuracy_percent 0.9 3 4 2]%float
               [0.5; 2]%float [0.7; 0.9]%float [3; 3]%Z [1; 4]%Z).

(** Two trials in which every factor varies and the accuracy does not. *)
Definition equal_accuracy : CDSSStatisticalAnalysis float :=
  mkAnalysis 2
    (mkResults [accuracy_percent 1 4 0 0.1; accuracy_percent 0.8 5 1 0]%float
               [0.1; 0]%float [1; 0.8]%float [4; 5]%Z [0; 1]%Z).

(** ** Real-valued counterparts

    What the routines compute in the exact instance, as plain functions on
    reals; the lemmas below relate them to the program. *)

Definition rsum (l : list R) : R := fold_left Rplus l 0%R.

Definition rmean (l : list R) : R := (rsum l / IZR (Z.of_nat (length l)))%R.

Definition rdev (l : list R) : list R := map (fun x => (x - rmean l)%R) l.

(** Sum of the squared deviations from the mean. *)
Definition rss (l : list R) : R := rsum (map (fun d => (d * d)%R) (rdev l)).

Definition rdot (u v : list R) : R :=
  rsum (map (fun p => (fst p * snd p)%R) (combine u v)).

Definition rcov (x y : list R) : R :=
  (rdot (rdev x) (rdev y) * (1 / IZR (Z.of_nat (length x) - 1)))%R.

Definition rclip (r : R) : R :=
  if Rlt_dec r (-1) then (-1)%R else if Rlt_dec 1 r then 1%R else r.

(** Pearson's coefficient as [np_corrcoef] computes it. *)
Definition rcorr (x y : list R) : R :=
  rclip (rcov x y / R_sqrt.sqrt (rcov x x) / R_sqrt.sqrt (rcov y y)).

(** The value [np_percentile] interpolates from an ascending list a of
    length k: rank 0.99 (k - 1), its integer part lo, the next index hi. *)
Definition interpolated_99 (a : list R) : R :=
  let k := Z.of_nat (length a) in
  let rank := (99 / 100 * IZR (k - 1))%R in
  let lo := Int_part rank in
  let hi := Z.min (lo + 1) (k - 1) in
  (nth (Z.to_nat lo) a 0 + (rank - IZR lo)
                           * (nth (Z.to_nat hi) a 0 - nth (Z.to_nat lo) a 0))%R.

(** The binary64 values that are a zero or NaN. *)
Definition zn_shape (f : spec_float) : Prop :=
  match f with
  | S754_zero _ | S754_nan => True
  | _ => False
  end.

(** ** Further notions about the result lists *)

(** The accuracies the model assigns to the stored samples, trial by
    trial. *)
Fixpoint model_accuracies {A} `{Num A} (dc : list A) (sc wv : list Z)
    (rt : list A) : list A :=
  match dc, sc, wv, rt with
  | d :: dc', s :: sc', w :: wv', t :: rt' =>
      accuracy_percent d s w t :: model_accuracies dc' sc' wv' rt'
  | _, _, _, _ => []
  end.

(** The stored accuracy of every trial is the model's value on the
    sample stored at the same position. *)
Definition consistent {A} `{Num A} (r : Results A) : Prop :=
  accuracy r
  = model_accuracies (data_completeness r) (symptom_clarity r)
      (workflow_variation r) (response_time r).

(** The stored accuracy as a function on reals. *)
Definition raccuracy (dc : R) (sc wv : Z) (rt : R) : R :=
  (90 / 100 * dc * (IZR sc / 5) * (1 - IZR wv * (1 / 100))
   * (1 - Rmin (rt / 10) (1 / 10)) * 100)%R.

(** ** Generators that keep numpy's promises *)

(** What numpy documents about the four draws: uniform(lo, hi) lies
    between lo and hi, randint(lo, hi) in [lo, hi), choice(seq) is an
    element of seq, exponential(scale) is not negative. *)
Class LegalSource (G : Type) `{RS : RandomSource xreal G} : Prop := {
  uniform_range : forall (lo hi : R) (g : G),
    (lo <= hi)%R ->
    exists v, fst (random_uniform (Some lo) (Some hi) g) = Some v
              /\ (lo <= v <= hi)%R;
  randint_range : forall (lo hi : Z) (g : G),
    (lo < hi)%Z -> (lo <= fst (random_randint lo hi g) < hi)%Z;
  choice_member : forall (l : list Z) (g : G),
    l <> [] -> In (fst (random_choice l g)) l;
  exponential_nonneg : forall (scale : R) (g : G),
    (0 < scale)%R ->
    exists v, fst (random_exponential (Some scale) g) = Some v /\ (0 <= v)%R
}.

(** Every stored value is defined and inside its domain, and every stored
    accuracy lies between 9 and 90. *)
Definition legal_results (r : Results xreal) : Prop :=
  Forall (fun v => exists a, v = Some a /\ (9 <= a <= 90)%R) (accuracy r)
  /\ Forall (fun v => exists t, v = Some t /\ (0 <= t)%R) (response_time r)
  /\ Forall (fun v => exists d, v = Some d /\ (6 / 10 <= d <= 1)%R)
        (data_completeness r)
  /\ Forall (fun s => 1 <= s <= 5)%Z (symptom_clarity r)
  /\ Forall (fun w => 0 <= w <= 7)%Z (workflow_variation r).

(** A counter generator in exact arithmetic. *)
Module Stepper.

Definition uniform (lo hi : xreal) (g : Z) : xreal * Z :=
  match lo, hi with
  | Some a, Some b => (Some (a + (b - a) * (IZR (g mod 4) / 4))%R, (g + 1)%Z)
  | _, _ => (None, (g + 1)%Z)
  end.

Definition randint (lo hi : Z) (g : Z) : Z * Z :=
  ((lo + g mod (hi - lo))%Z, (g + 1)%Z).

Definition choice (l : list Z) (g : Z) : Z * Z :=
  (nth (Z.to_nat (g mod Z.of_nat (length l))) l 0%Z, (g + 1)%Z).

Definition exponential (scale : xreal) (g : Z) : xreal * Z :=
  match scale with
  | Some s => (Some (s * IZR (g mod 3))%R, (g + 1)%Z)
  | None => (None, (g + 1)%Z)
  end.

End Stepper.

#[export] Instance stepper_source : RandomSource xreal Z := {|
  random_uniform := Stepper.uniform;
  random_randint := Stepper.randint;
  random_choice := Stepper.choice;
  random_exponential := Stepper.exponential
|}.

(** * Properties *)

(** ** Reading the exact instance *)

(** Unfold the conversions and literals of the exact instance only. *)
Ltac xlit := cbn [of_Z lit exact].

Lemma xdiv_some (a b : R) :
  b <> 0%R -> div (Some a) (Some b) = Some (a / b)%R.
Proof.
  intros Hb. cbn. destruct (Req_dec_T b 0) as [E | _]; [contradiction | reflexivity].
Qed.

Lemma xdiv_zero (a : R) : div (Some a) (Some 0%R) = None.
Proof.
  cbn. destruct (Req_dec_T 0 0) as [_ | N]; [reflexivity | now elim N].
Qed.

Lemma xsqrt_some (a : R) :
  (0 <= a)%R -> sqrt (Some a) = Some (R_sqrt.sqrt a).
Proof.
  intros Ha. cbn. destruct (Rlt_dec a 0) as [L | _]; [lra | reflexivity].
Qed.

Lemma xltb_some (a b : R) :
  ltb (Some a) (Some b) = if Rlt_dec a b then true else false.
Proof. reflexivity. Qed.

Lemma xleb_some (a b : R) :
  leb (Some a) (Some b) = if Rle_dec a b then true else false.
Proof. reflexivity. Qed.

Lemma py_min_exact (a b : R) : py_min (Some a) (Some b) = Some (Rmin a b).
Proof.
  unfold py_min, Rmin. rewrite xltb_some.
  destruct (Rlt_dec b a), (Rle_dec a b); try reflexivity; lra.
Qed.

Lemma response_penalty_exact (rt : R) :
  response_penalty (Some rt) = Some (Rmin (rt / 10) (1 / 10)).
Proof.
  unfold response_penalty. xlit. rewrite xdiv_some by lra. apply py_min_exact.
Qed.

(** The stored accuracy, in exact arithmetic, is the plain product. *)
Lemma accuracy_percent_exact (dc rt : R) (sc wv : Z) :
  accuracy_percent (Some dc) sc wv (Some rt)
  = Some (90 / 100 * dc * (IZR sc / 5) * (1 - IZR wv * (1 / 100))
          * (1 - Rmin (rt / 10) (1 / 10)) * 100)%R.
Proof.
  unfold accuracy_percent, accuracy_fraction, base_accuracy.
  rewrite response_penalty_exact. xlit. rewrite xdiv_some by lra. reflexivity.
Qed.

Lemma penalty_bounds (rt : R) :
  (0 <= rt -> 0 <= Rmin (rt / 10) (1 / 10) <= 1 / 10)%R.
Proof.
  intros Hrt. unfold Rmin. destruct (Rle_dec (rt / 10) (1 / 10)); lra.
Qed.

(** ** The accuracy model *)

(** C8.  For every sample from the legal domains the stored accuracy is
    defined and lies between 9 and 90, and the penalty is exactly the
    smaller of response_time / 10 and 0.1.  Nothing else is clamped: in
    every arithmetic the stored value is the plain product, in the order of
    the source, of the base rate, the four factors and 100, with the one
    minimum inside the penalty; outside the legal domain the result leaves
    [9, 90] on both sides, in exact arithmetic and in double precision. *)
Theorem accuracy_range :
  (forall (dc rt : R) (sc wv : Z),
      (6 / 10 <= dc <= 1)%R -> (1 <= sc <= 5)%Z -> (0 <= wv <= 7)%Z ->
      (0 <= rt)%R ->
      exists a p : R,
        accuracy_percent (Some dc) sc wv (Some rt) = Some a
        /\ (9 <= a <= 90)%R
        /\ response_penalty (Some rt) = Some p
        /\ (0 <= p <= 1 / 10)%R
        /\ ((rt <= 1)%R -> p = (rt / 10)%R)
        /\ ((1 <= rt)%R -> p = (1 / 10)%R))
  /\ (forall (A : Type) (NA : Num A) (dc rt : A) (sc wv : Z),
        accuracy_percent dc sc wv rt
        = mul (mul (mul (mul (mul (lit 90 100) dc)
                              (div (of_Z sc) (of_Z 5)))
                         (sub (of_Z 1) (mul (of_Z wv) (lit 1 100))))
                    (sub (of_Z 1) (response_penalty rt)))
              (of_Z 100)
        /\ response_penalty rt
           = if ltb (lit 1 10) (div rt (of_Z 10)) then lit 1 10
             else div rt (of_Z 10))
  /\ (forall dc : R,
        (2 <= dc)%R ->
        exists a, accuracy_percent (Some dc) 5 0 (Some 0%R) = Some a
                  /\ (90 < a)%R)
  /\ (forall dc : R,
        (0 <= dc <= 1 / 2)%R ->
        exists a, accuracy_percent (Some dc) 1 7 (Some 20%R) = Some a
                  /\ (a < 9)%R)
  /\ accuracy_percent 2%float 5 0 0%float = 180%float
  /\ accuracy_percent 0.5%float 1 7 20%float = 7.533000000000001%float
  /\ accuracy_percent 1%float 5 0 0%float = 90%float
  /\ accuracy_percent 0.6%float 1 7 1%float = 9.0396%float.
Proof.
  split; [| split; [| split; [| split]]].
  - intros dc rt sc wv Hdc [Hsc1 Hsc5] [Hwv0 Hwv7] Hrt.
    exists (90 / 100 * dc * (IZR sc / 5) * (1 - IZR wv * (1 / 100))
            * (1 - Rmin (rt / 10) (1 / 10)) * 100)%R,
           (Rmin (rt / 10) (1 / 10)).
    rewrite accuracy_percent_exact, response_penalty_exact.
    pose proof (penalty_bounds rt Hrt) as Hp.
    assert (Hlow : (rt <= 1 -> Rmin (rt / 10) (1 / 10) = rt / 10)%R).
    { intros H. unfold Rmin. destruct (Rle_dec (rt / 10) (1 / 10)); lra. }
    assert (Hhigh : (1 <= rt -> Rmin (rt / 10) (1 / 10) = 1 / 10)%R).
    { intros H. unfold Rmin. destruct (Rle_dec (rt / 10) (1 / 10)); lra. }
    apply IZR_le in Hsc1, Hsc5, Hwv0, Hwv7.
    set (p := Rmin (rt / 10) (1 / 10)) in *.
    set (s := IZR sc) in *. set (w := IZR wv) in *.
    split; [reflexivity |]. split; [| repeat split; try assumption; lra].
    split.
    + assert (H1 : (6 / 10 * (1 / 5) <= dc * (s / 5))%R) by nra.
      assert (H2 : (93 / 100 * (9 / 10) <= (1 - w * (1 / 100)) * (1 - p))%R)
        by nra.
      assert (H3 : (6 / 10 * (1 / 5) * (93 / 100 * (9 / 10))
                    <= dc * (s / 5) * ((1 - w * (1 / 100)) * (1 - p)))%R) by nra.
      lra.
    + assert (H1 : (0 <= dc * (s / 5) <= 1)%R) by nra.
      assert (H2 : (0 <= (1 - w * (1 / 100)) * (1 - p) <= 1)%R) by nra.
      assert (H3 : (dc * (s / 5) * ((1 - w * (1 / 100)) * (1 - p)) <= 1)%R)
        by nra.
      lra.
  - intros A NA dc rt sc wv. split; reflexivity.
  - intros dc Hdc. eexists. rewrite accuracy_percent_exact.
    split; [reflexivity |].
    unfold Rmin. destruct (Rle_dec (0 / 10) (1 / 10)); lra.
  - intros dc Hdc. eexists. rewrite accuracy_percent_exact.
    split; [reflexivity |].
    unfold Rmin. destruct (Rle_dec (20 / 10) (1 / 10)); lra.
  - repeat split; reflexivity.
Qed.

Lemma accuracy_range_witness :
  exists a p : R,
    accuracy_percent (Some (8 / 10)%R) 3 2 (Some 1%R) = Some a
    /\ (9 <= a <= 90)%R
    /\ response_penalty (Some 1%R) = Some p
    /\ (0 <= p <= 1 / 10)%R.
Proof.
  destruct accuracy_range as [Hlegal _].
  destruct (Hlegal (8 / 10)%R 1%R 3%Z 2%Z) as (a & p & Ea & Ha & Ep & Hp & _);
    try lra; try lia.
  exists a, p. repeat split; try assumption; lra.
Defined.

(** The two extreme samples in double precision: the range is attained
    at 90.0 and, at the other corner, stays above 9. *)
Example accuracy_corners_binary64 :
  accuracy_percent 1%float 5 0 0%float = 90%float
  /\ accuracy_percent 0.6%float 1 7 1%float = 9.0396%float.
Proof. split; reflexivity. Qed.

(** Outside the legal domain nothing caps the result. *)
Example accuracy_not_clamped :
  accuracy_percent (Some 2%R) 5 0 (Some 0%R) = Some 180%R.
Proof.
  rewrite accuracy_percent_exact. f_equal.
  unfold Rmin. destruct (Rle_dec (0 / 10) (1 / 10)); lra.
Qed.

(** Two floats that differ under the IEEE comparison are different. *)
Lemma float_neq (x y : float) : PrimFloat.eqb x y = false -> PrimFloat.eqb x x = true -> x <> y.
Proof. intros Hxy Hxx E. rewrite <- E in Hxy. congruence. Qed.

(** The literals of the source are the doubles the instance builds. *)
Example binary64_literals :
  lit 90 100 = 0.9%float /\ lit 1 100 = 0.01%float
  /\ lit 1 10 = 0.1%float /\ lit 6 10 = 0.6%float /\ lit 95 100 = 0.95%float.
Proof. repeat split; reflexivity. Qed.

(** C5, as stated, fails on the doubles the program computes with: the
    stored value for (0.8, 5, 0, 0) is not 72.0. *)
Lemma binary64_accuracy_not_72 :
  accuracy_percent 0.8%float 5 0 0%float <> 72%float.
Proof. apply float_neq; vm_compute; reflexivity. Qed.

(** C5, amended.  For (0.8, 5, 0, 0) the accuracy is exactly 72 in exact
    arithmetic; in double precision, with the operations in the order the
    source performs them (0.90 * 0.8 * ... and a final * 100), it is
    72.00000000000001, the double next above 72.0. *)
Theorem accuracy_72 :
  accuracy_percent (Some (8 / 10)%R) 5 0 (Some 0%R) = Some 72%R
  /\ accuracy_percent 0.8%float 5 0 0%float = 72.00000000000001%float
  /\ PrimFloat.next_up 72%float = 72.00000000000001%float.
Proof.
  split; [| split; vm_compute; reflexivity].
  rewrite accuracy_percent_exact. f_equal.
  unfold Rmin. destruct (Rle_dec (0 / 10) (1 / 10)); lra.
Qed.

(** C6, as stated, fails: with the penalty clamped to 0.1 the product
    90 * 0.6 * 0.2 * 0.93 * 0.9 is not 9.0468. *)
Lemma penalty_cap_not_90468 :
  accuracy_percent (Some (6 / 10)%R) 1 7 (Some 20%R) <> Some (90468 / 10000)%R.
Proof.
  rewrite accuracy_percent_exact. intros E. injection E as E. revert E.
  unfold Rmin. destruct (Rle_dec (20 / 10) (1 / 10)); lra.
Qed.

(** C6, amended.  For (0.6, 1, 7, 20) the response-time penalty is clamped
    to 0.1 (20/10 = 2 exceeds it) and the accuracy is
    90 * 0.6 * 0.2 * 0.93 * 0.9 = 9.0396, in exact arithmetic and, to the
    nearest double, in double precision. *)
Theorem accuracy_penalty_cap :
  response_penalty (Some 20%R) = Some (1 / 10)%R
  /\ accuracy_percent (Some (6 / 10)%R) 1 7 (Some 20%R)
     = Some (90 * (6 / 10) * (2 / 10) * (93 / 100) * (9 / 10))%R
  /\ (90 * (6 / 10) * (2 / 10) * (93 / 100) * (9 / 10) = 90396 / 10000)%R
  /\ response_penalty 20%float = 0.1%float
  /\ accuracy_percent 0.6%float 1 7 20%float = 9.0396%float.
Proof.
  assert (Hmin : Rmin (20 / 10) (1 / 10) = (1 / 10)%R).
  { unfold Rmin. destruct (Rle_dec (20 / 10) (1 / 10)); lra. }
  repeat split.
  - rewrite response_penalty_exact, Hmin. reflexivity.
  - rewrite accuracy_percent_exact, Hmin. f_equal. lra.
  - lra.
Qed.

(** ** The simulation loop *)

Section SimulationFacts.

Context {A : Type} `{NA : Num A} {G : Type} `{RS : RandomSource A G}.

Lemma app_results_assoc (r1 r2 r3 : Results A) :
  app_results (app_results r1 r2) r3 = app_results r1 (app_results r2 r3).
Proof. unfold app_results; cbn. now rewrite <- !app_assoc. Qed.

Lemma app_results_empty_l (r : Results A) : app_results empty_results r = r.
Proof. now destruct r. Qed.

Lemma lengths_app (r1 r2 : Results A) (n1 n2 : nat) :
  lengths r1 n1 -> lengths r2 n2 -> lengths (app_results r1 r2) (n1 + n2).
Proof.
  unfold lengths; cbn. intros (?&?&?&?&?) (?&?&?&?&?).
  rewrite !length_app. repeat split; congruence.
Qed.

(** The loop body appends one entry to each list, whatever they held. *)
Lemma iteration_app (r : Results A) (g : G) :
  iteration r g
  = (app_results r (fst (iteration empty_results g)),
     snd (iteration empty_results g)).
Proof.
  unfold iteration.
  destruct (random_uniform (lit 6 10) (of_Z 1) g) as [dc g1].
  destruct (random_randint 1 6 g1) as [sc g2].
  destruct (random_choice (range 8) g2) as [wv g3].
  destruct (random_exponential (of_Z 2) g3) as [rt g4].
  reflexivity.
Qed.

Lemma iteration_lengths (g : G) : lengths (fst (iteration empty_results g)) 1.
Proof.
  unfold iteration.
  destruct (random_uniform (lit 6 10) (of_Z 1) g) as [dc g1].
  destruct (random_randint 1 6 g1) as [sc g2].
  destruct (random_choice (range 8) g2) as [wv g3].
  destruct (random_exponential (of_Z 2) g3) as [rt g4].
  repeat split.
Qed.

(** The loop appends to what was there the entries a run on empty lists
    produces from the same generator state. *)
Lemma iterations_app (n : nat) (r : Results A) (g : G) :
  iterations n r g
  = (app_results r (fst (iterations n empty_results g)),
     snd (iterations n empty_results g)).
Proof.
  revert r g. induction n as [| n IH]; intros r g; cbn [iterations].
  - destruct r; unfold app_results; cbn. now rewrite !app_nil_r.
  - rewrite (iteration_app r g).
    destruct (iteration empty_results g) as [r1 g1]; cbn [fst snd].
    rewrite (IH (app_results r r1)), (IH r1), app_results_assoc.
    reflexivity.
Qed.

Lemma iterations_lengths (n : nat) (g : G) :
  lengths (fst (iterations n empty_results g)) n.
Proof.
  revert g. induction n as [| n IH]; intros g; cbn [iterations].
  - repeat split.
  - pose proof (iteration_lengths g) as H1.
    destruct (iteration empty_results g) as [r1 g1]; cbn [fst] in H1.
    rewrite iterations_app; cbn [fst].
    change (S n) with (1 + n)%nat. apply lengths_app; [assumption | apply IH].
Qed.

(** One call: same trial count, and the old lists extended by a fresh run. *)
Lemma simulate_app (self : CDSSStatisticalAnalysis A) (g : G) :
  simulate_diagnostic_accuracy self g
  = (mkAnalysis (n_iterations self)
       (app_results (results self)
          (fst (iterations (n_iterations self) empty_results g))),
     snd (iterations (n_iterations self) empty_results g)).
Proof.
  unfold simulate_diagnostic_accuracy. rewrite iterations_app. reflexivity.
Qed.

Lemma simulate_times_lengths (m : nat) (self : CDSSStatisticalAnalysis A) (g : G) (l : nat) :
  lengths (results self) l ->
  n_iterations (fst (simulate_times m self g)) = n_iterations self
  /\ lengths (results (fst (simulate_times m self g))) (l + m * n_iterations self).
Proof.
  revert self g l. induction m as [| m IH]; intros self g l Hl; cbn [simulate_times].
  - cbn. rewrite Nat.add_0_r. now split.
  - rewrite simulate_app.
    set (self' := mkAnalysis _ _). set (g' := snd _).
    destruct (IH self' g' (l + n_iterations self)%nat) as [Hn Hlen].
    + apply lengths_app; [assumption | apply iterations_lengths].
    + cbn [n_iterations self'] in Hn, Hlen. split; [assumption |].
      replace (l + S m * n_iterations self)%nat
        with (l + n_iterations self + m * n_iterations self)%nat by lia.
      exact Hlen.
Qed.

End SimulationFacts.

(** C10.  On an object whose five lists have one common length, each call
    of the simulation appends exactly [n_iterations] entries to every list;
    after m calls the common length has grown by m * n_iterations.  The
    lists after a second call are those after the first followed by the
    second run's entries, and what calculate_statistics and
    sensitivity_analysis then compute is the mean, deviation, interval,
    percentile and correlations of these combined lists, not of the
    latest run: on two runs of three trials the reported mean is the mean
    of all six accuracies and differs from the mean of the last three. *)
Theorem results_accumulate :
  (forall (A : Type) (NA : Num A) (G : Type) (RS : RandomSource A G)
          (self : CDSSStatisticalAnalysis A) (g : G) (l m : nat)
          (ndtri : A -> A),
      lengths (results self) l ->
      let n := n_iterations self in
      let self1 := fst (simulate_diagnostic_accuracy self g) in
      let g1 := snd (simulate_diagnostic_accuracy self g) in
      let self2 := fst (simulate_diagnostic_accuracy self1 g1) in
      let run2 := fst (iterations n empty_results g1) in
      let both := mkAnalysis n (app_results (results self1) run2) in
      let acc := accuracy (results self1) ++ accuracy run2 in
      let rts := response_time (results self1) ++ response_time run2 in
      let dcs := data_completeness (results self1) ++ data_completeness run2 in
      let scs := symptom_clarity (results self1) ++ symptom_clarity run2 in
      let wvs := workflow_variation (results self1) ++ workflow_variation run2 in
      lengths (results self1) (l + n)
      /\ lengths (results (fst (simulate_times m self g))) (l + m * n)
      /\ lengths run2 n
      /\ lengths (results self2) (l + n + n)
      /\ self2 = both
      /\ calculate_statistics ndtri self2
         = match np_percentile rts 99 with
           | Raised e => Raised e
           | Returned p =>
               Returned
                 (mkReport (np_mean acc) (np_std 0 acc)
                    (norm_interval ndtri (lit 95 100) (np_mean acc)
                       (stats_sem acc))
                    p)
           end
      /\ sensitivity_analysis self2
         = normalize
             (mkFactors (np_corrcoef dcs acc)
                (np_corrcoef (map of_Z scs) acc)
                (np_corrcoef (map of_Z wvs) acc)
                (np_corrcoef rts acc)))
  /\ (let fresh := mkAnalysis 3 (empty_results (A := float)) in
      let self1 := fst (simulate_diagnostic_accuracy fresh 0%Z) in
      let g1 := snd (simulate_diagnostic_accuracy fresh 0%Z) in
      let self2 := fst (simulate_diagnostic_accuracy self1 g1) in
      let latest := mkAnalysis 3 (fst (iterations 3 empty_results g1)) in
      exists rep2 rep_latest,
        calculate_statistics ndtri_table self2 = Returned rep2
        /\ calculate_statistics ndtri_table latest = Returned rep_latest
        /\ length (accuracy (results self2)) = 6%nat
        /\ mean_accuracy rep2
           = np_mean (accuracy (results self1) ++ accuracy (results latest))
        /\ PrimFloat.eqb (mean_accuracy rep2) (mean_accuracy rep_latest) = false
        /\ PrimFloat.eqb (percentile_99_response rep2)
                          (percentile_99_response rep_latest) = false).
Proof.
  split.
  - intros A NA G RS self g l m ndtri Hl n self1 g1 self2 run2 both
           acc rts dcs scs wvs.
    assert (E2 : self2 = both).
    { unfold self2, both, run2, self1. rewrite !simulate_app. reflexivity. }
    assert (L1 : lengths (results self1) (l + n)).
    { unfold self1. rewrite simulate_app. cbn [fst results].
      apply lengths_app; [assumption | apply iterations_lengths]. }
    split; [exact L1 |].
    split; [apply simulate_times_lengths; assumption |].
    split; [apply iterations_lengths |].
    split.
    { rewrite E2. cbn [results].
      apply lengths_app; [exact L1 | apply iterations_lengths]. }
    split; [exact E2 |].
    split; rewrite E2; reflexivity.
  - vm_compute. eexists _, _. repeat split.
Qed.

Lemma results_accumulate_witness :
  let self := mkAnalysis 2 (empty_results (A := float)) in
  lengths (results (fst (simulate_diagnostic_accuracy self 0%Z))) (0 + 2)
  /\ lengths (results (fst (simulate_times 3 self 0%Z))) (0 + 3 * 2).
Proof.
  intros self.
  destruct results_accumulate as [Hgen _].
  destruct (Hgen float binary64 Z counter_source self 0%Z 0%nat 3%nat
              (fun q => q)) as (H1 & H2 & _).
  - repeat split.
  - split; [exact H1 | exact H2].
Defined.


(** ** The percentile *)

Lemma insert_sorted_exact (x : R) (l : list R) :
  Sorted Rle l ->
  exists l', insert_sorted (Some x) (map Some l) = map Some l'
             /\ Permutation (x :: l) l' /\ Sorted Rle l'
             /\ (forall y, HdRel Rle y l -> (y <= x)%R -> HdRel Rle y l').
Proof.
  induction l as [| y l IH]; intros Hs.
  - exists [x]. cbn. repeat split; auto.
  - cbn [map insert_sorted]. rewrite xleb_some.
    destruct (Rle_dec x y) as [Hxy | Hxy].
    + exists (x :: y :: l). repeat split; auto.
    + inversion Hs as [| ? ? Hs' Hhd]; subst.
      destruct (IH Hs') as (l' & E & P & S' & Hd).
      exists (y :: l'). rewrite E. repeat split.
      * rewrite perm_swap. now constructor.
      * constructor; [assumption |]. apply Hd; [assumption | lra].
      * intros z Hz _. inversion Hz; subst. now constructor.
Qed.

(** Sorting in the exact instance yields the ascending rearrangement. *)
Lemma sort_exact (l : list R) :
  exists l', sort (map Some l) = map Some l'
             /\ Permutation l l' /\ Sorted Rle l'.
Proof.
  induction l as [| x l (l1 & E & P & S1)].
  - exists []. repeat split; auto.
  - unfold sort in *. cbn [map fold_right]. rewrite E.
    destruct (insert_sorted_exact x l1 S1) as (l2 & E2 & P2 & S2 & _).
    exists l2. repeat split; try assumption.
    now rewrite <- P2, <- P.
Qed.

Lemma index_exact (l : list R) (i : Z) :
  (0 <= i < Z.of_nat (length l))%Z ->
  index (map Some l) i = Returned (Some (nth (Z.to_nat i) l 0%R)).
Proof.
  intros Hi. unfold index. rewrite length_map.
  destruct (Z.ltb_spec i 0); [lia |].
  destruct (Z.ltb_spec i 0); [lia |].
  destruct (Z.leb_spec (Z.of_nat (length l)) i); [lia |]. cbn [orb].
  rewrite nth_error_map.
  rewrite (nth_error_nth' l 0%R) by lia. reflexivity.
Qed.

Lemma index_empty {A} `{Num A} (i : Z) : index (@nil A) i = Raised IndexError.
Proof.
  unfold index. cbn [length Z.of_nat].
  destruct (i <? 0)%Z eqn:Ei.
  - rewrite Z.add_0_r, Ei. reflexivity.
  - destruct (Z.leb_spec 0 i) as [_ | Hlt]; [| apply Z.ltb_ge in Ei; lia].
    now rewrite orb_true_r.
Qed.

Lemma lerp_exact (a b t : R) :
  lerp (Some a) (Some b) (Some t) = Some (a + t * (b - a))%R.
Proof.
  unfold lerp. xlit. rewrite xleb_some.
  destruct (Rle_dec (1 / 2) t); cbn; f_equal; lra.
Qed.

Lemma Int_part_bounds (r : R) :
  (IZR (Int_part r) <= r < IZR (Int_part r) + 1)%R.
Proof. destruct (base_Int_part r). lra. Qed.

Lemma Int_part_unique (r : R) (z : Z) :
  (IZR z <= r < IZR z + 1)%R -> Int_part r = z.
Proof.
  intros Hz. pose proof (Int_part_bounds r) as Hi.
  assert (H1 : (Int_part r < z + 1)%Z) by (apply lt_IZR; rewrite plus_IZR; lra).
  assert (H2 : (z < Int_part r + 1)%Z) by (apply lt_IZR; rewrite plus_IZR; lra).
  lia.
Qed.

Lemma sort_sorted_exact (a : list R) :
  Sorted Rle a -> sort (map Some a) = map Some a.
Proof.
  induction a as [| x a IH]; intros Hs; [reflexivity |].
  inversion Hs as [| ? ? Hs' Hhd]; subst.
  unfold sort in *. cbn [map fold_right]. rewrite (IH Hs').
  destruct a as [| y a]; [reflexivity |].
  cbn [map insert_sorted]. rewrite xleb_some.
  inversion Hhd; subst. destruct (Rle_dec x y); [reflexivity | contradiction].
Qed.

Lemma rank_99_bounds (k : Z) :
  (1 <= k)%Z ->
  let rank := (99 / 100 * IZR (k - 1))%R in
  (0 <= Int_part rank <= k - 1)%Z
  /\ (IZR (Int_part rank) <= rank < IZR (Int_part rank) + 1)%R.
Proof.
  intros Hk rank. pose proof (Int_part_bounds rank) as Hb.
  assert (H0 : (0 <= IZR (k - 1))%R) by (apply IZR_le; lia).
  assert (Hr : (0 <= rank <= IZR (k - 1))%R) by (unfold rank; lra).
  split; [| exact Hb]. split.
  - assert (H : (-1 < Int_part rank)%Z) by (apply lt_IZR; lra). lia.
  - apply le_IZR. lra.
Qed.

Lemma np_percentile_sorted (a : list R) :
  a <> [] -> Sorted Rle a ->
  np_percentile (map Some a) 99 = Returned (Some (interpolated_99 a)).
Proof.
  intros Hne Hs. unfold np_percentile, interpolated_99.
  rewrite (sort_sorted_exact a Hs), length_map.
  set (k := Z.of_nat (length a)).
  assert (Hk : (1 <= k)%Z) by (destruct a; [congruence | cbn in k; lia]).
  xlit. rewrite xdiv_some by lra.
  change (Some (99 / 100)%R * Some (IZR (k - 1)))%num
    with (Some (99 / 100 * IZR (k - 1))%R).
  cbn [floor exact XR.floor].
  destruct (rank_99_bounds k Hk) as [Hlo _].
  set (lo := Int_part (99 / 100 * IZR (k - 1))) in *.
  rewrite !index_exact by (fold k; lia).
  change (Some (99 / 100 * IZR (k - 1))%R - Some (IZR lo))%num
    with (Some (99 / 100 * IZR (k - 1) - IZR lo)%R).
  rewrite lerp_exact. reflexivity.
Qed.

Lemma np_percentile_exact (l : list R) :
  l <> [] ->
  exists a : list R,
    Permutation l a /\ Sorted Rle a /\ a <> []
    /\ np_percentile (map Some l) 99 = Returned (Some (interpolated_99 a)).
Proof.
  intros Hl. destruct (sort_exact l) as (a & E & P & S).
  assert (Hne : a <> []).
  { intros ->. apply Permutation_sym, Permutation_nil in P. contradiction. }
  exists a. repeat split; try assumption.
  rewrite <- (np_percentile_sorted a Hne S).
  unfold np_percentile. rewrite !length_map, E.
  rewrite (sort_sorted_exact a S), (Permutation_length P). reflexivity.
Qed.


(** ** Sums, means and deviations in the exact instance *)

Lemma fold_add_exact (l : list R) (a : R) :
  fold_left add (map Some l) (Some a) = Some (fold_left Rplus l a).
Proof.
  revert a. induction l as [| x l IH]; intros a; [reflexivity |].
  cbn [map fold_left]. apply IH.
Qed.

Lemma np_sum_exact (l : list R) : np_sum (map Some l) = Some (rsum l).
Proof. apply fold_add_exact. Qed.

Lemma count_exact (l : list R) :
  count (map Some l) = Some (IZR (Z.of_nat (length l))).
Proof. unfold count. now rewrite length_map. Qed.

Lemma count_pos (l : list R) : l <> [] -> (0 < IZR (Z.of_nat (length l)))%R.
Proof.
  intros Hne. apply IZR_lt. destruct l; [congruence | cbn; lia].
Qed.

Lemma np_mean_exact (l : list R) :
  l <> [] -> np_mean (map Some l) = Some (rmean l).
Proof.
  intros Hne. unfold np_mean. rewrite np_sum_exact, count_exact.
  apply xdiv_some. pose proof (count_pos l Hne). lra.
Qed.

Lemma deviations_exact (l : list R) :
  deviations (map Some l) = map Some (rdev l).
Proof.
  destruct l as [| x l]; [reflexivity |].
  unfold deviations, rdev. rewrite np_mean_exact by discriminate.
  now rewrite !map_map.
Qed.

Lemma squares_exact (l : list R) :
  squares (map Some l) = map Some (map (fun d => (d * d)%R) l).
Proof. unfold squares. now rewrite !map_map. Qed.

Lemma fold_plus_le (l : list R) (a b : R) :
  (a <= b)%R -> Forall (fun x => 0 <= x)%R l -> (a <= fold_left Rplus l b)%R.
Proof.
  revert b. induction l as [| x l IH]; intros b Hab Hl; cbn; [assumption |].
  inversion Hl; subst. apply IH; [lra | assumption].
Qed.

Lemma rss_nonneg (l : list R) : (0 <= rss l)%R.
Proof.
  unfold rss, rsum. apply fold_plus_le; [lra |].
  apply Forall_forall. intros y Hy. apply in_map_iff in Hy as (d & <- & _). nra.
Qed.

Lemma np_var_exact (ddof : Z) (l : list R) :
  (ddof < Z.of_nat (length l))%Z ->
  np_var ddof (map Some l)
  = Some (rss l / IZR (Z.of_nat (length l) - ddof))%R.
Proof.
  intros Hk. unfold np_var.
  rewrite deviations_exact, squares_exact, np_sum_exact, length_map.
  rewrite Z.max_l by lia. xlit. apply xdiv_some.
  assert (0 < IZR (Z.of_nat (length l) - ddof))%R by (apply IZR_lt; lia). lra.
Qed.

Lemma np_std_exact (ddof : Z) (l : list R) :
  (ddof < Z.of_nat (length l))%Z ->
  np_std ddof (map Some l)
  = Some (R_sqrt.sqrt (rss l / IZR (Z.of_nat (length l) - ddof))).
Proof.
  intros Hk. unfold np_std. rewrite np_var_exact by assumption.
  apply xsqrt_some.
  assert (0 < IZR (Z.of_nat (length l) - ddof))%R by (apply IZR_lt; lia).
  apply Rmult_le_pos; [apply rss_nonneg | left; now apply Rinv_0_lt_compat].
Qed.

Lemma stats_sem_exact (l : list R) :
  (2 <= length l)%nat ->
  stats_sem (map Some l)
  = Some (R_sqrt.sqrt (rss l / IZR (Z.of_nat (length l) - 1))
          / R_sqrt.sqrt (IZR (Z.of_nat (length l))))%R.
Proof.
  intros Hk. unfold stats_sem.
  rewrite np_std_exact, count_exact by lia.
  assert (Hpos : (0 < IZR (Z.of_nat (length l)))%R) by (apply IZR_lt; lia).
  rewrite xsqrt_some by lra. apply xdiv_some.
  pose proof (sqrt_lt_R0 _ Hpos). lra.
Qed.

Lemma norm_ppf_exact (ndtri : xreal -> xreal) (q z m s : R) :
  ndtri (Some q) = Some z -> (0 < s)%R ->
  norm_ppf ndtri (Some q) (Some m) (Some s) = Some (z * s + m)%R.
Proof.
  intros Hq Hs. unfold norm_ppf. xlit. rewrite xltb_some.
  destruct (Rlt_dec 0 s); [| contradiction].
  cbn [eqb exact XR.test2 andb].
  destruct (Req_dec_T m m) as [_ | N]; [| now elim N].
  rewrite Hq. reflexivity.
Qed.

(** The standard error with the (k - 1) deviation equals the population
    deviation over sqrt (k - 1). *)
Lemma sem_population (s k : R) :
  (0 <= s)%R -> (1 < k)%R ->
  (R_sqrt.sqrt (s / (k - 1)) / R_sqrt.sqrt k
   = R_sqrt.sqrt (s / k) / R_sqrt.sqrt (k - 1))%R.
Proof.
  intros Hs Hk.
  rewrite !sqrt_div_alt by lra.
  assert (0 < R_sqrt.sqrt k)%R by (apply sqrt_lt_R0; lra).
  assert (0 < R_sqrt.sqrt (k - 1))%R by (apply sqrt_lt_R0; lra).
  field. lra.
Qed.

(** ** The statistics calculator *)

Example three_trials_value :
  three_trials
  = mkAnalysis 3
      (mkResults
         [19.051200000000005; 12.617485714285712; 52.164000000000001]%float
         [3; 2; 1]%float
         [0.6; 0.82857142857142851; 0.65714285714285714]%float
         [2; 1; 5]%Z [2; 6; 2]%Z).
Proof. vm_compute. reflexivity. Qed.

(** C1, as stated, fails: on the three simulated trials the interval the
    calculator returns is wider than mean -/+ z * std / sqrt k with the
    population deviation it reports. *)
Lemma ci_95_not_population :
  exists rep,
    calculate_statistics ndtri_table three_trials = Returned rep
    /\ ci_95 rep <> population_ci_95 (lit 1959964 1000000)
                      (accuracy (results three_trials))
    /\ PrimFloat.ltb (fst (ci_95 rep))
         (fst (population_ci_95 (lit 1959964 1000000)
                 (accuracy (results three_trials)))) = true.
Proof.
  eexists. split; [vm_compute; reflexivity |]. split.
  - intros E. apply (f_equal fst) in E. revert E.
    apply float_neq; vm_compute; reflexivity.
  - vm_compute. reflexivity.
Qed.

(** C1, amended.  For k >= 2 accuracy values that are not all equal, the
    interval is mean -/+ z * s / sqrt k with s the sample deviation (squared
    deviations over k - 1, scipy's standard error); in terms of the
    population deviation the calculator reports as std_accuracy, that is
    mean -/+ z * std_accuracy / sqrt (k - 1).  z is the 97.5th-percentile
    point of the standard normal distribution. *)
Theorem ci_95_sample_deviation (self : CDSSStatisticalAnalysis xreal)
    (accs rts : list R) (ndtri : xreal -> xreal) (z : R) :
  accuracy (results self) = map Some accs ->
  response_time (results self) = map Some rts ->
  (2 <= length accs)%nat -> length rts = length accs ->
  (0 < rss accs)%R ->
  ndtri (Some (975 / 1000)%R) = Some z ->
  ndtri (Some (25 / 1000)%R) = Some (- z)%R ->
  (Rabs (z - 1959964 / 1000000) <= 1 / 1000000)%R ->
  let k := IZR (Z.of_nat (length accs)) in
  let m := rmean accs in
  let std := R_sqrt.sqrt (rss accs / k) in
  let s := R_sqrt.sqrt (rss accs / (k - 1)) in
  exists rep,
    calculate_statistics ndtri self = Returned rep
    /\ mean_accuracy rep = Some m
    /\ std_accuracy rep = Some std
    /\ ci_95 rep = (Some (m - z * (s / R_sqrt.sqrt k))%R,
                    Some (m + z * (s / R_sqrt.sqrt k))%R)
    /\ ci_95 rep = (Some (m - z * (std / R_sqrt.sqrt (k - 1)))%R,
                    Some (m + z * (std / R_sqrt.sqrt (k - 1)))%R).
Proof.
  intros Hacc Hrt Hk Hlen Hss Hhi Hlo _ k m std s.
  assert (Hne : accs <> []) by (destruct accs; [cbn in Hk; lia | discriminate]).
  assert (Hrne : rts <> []) by (destruct rts; [cbn in Hlen; lia | discriminate]).
  destruct (np_percentile_exact rts Hrne) as (a & _ & _ & _ & Ep).
  assert (Hk2 : (2 <= k)%R) by (apply IZR_le; lia).
  assert (Hs : (0 < s)%R).
  { apply sqrt_lt_R0. apply Rmult_lt_0_compat; [assumption |].
    apply Rinv_0_lt_compat. lra. }
  assert (Hsk : (0 < R_sqrt.sqrt k)%R) by (apply sqrt_lt_R0; lra).
  assert (Hsem : (0 < s / R_sqrt.sqrt k)%R).
  { apply Rmult_lt_0_compat; [assumption | now apply Rinv_0_lt_compat]. }
  unfold calculate_statistics. rewrite Hacc, Hrt, Ep.
  rewrite np_mean_exact, np_std_exact, stats_sem_exact by (assumption || lia).
  rewrite Z.sub_0_r, minus_IZR. fold k m std s.
  unfold norm_interval. xlit. change (IZR 1) with 1%R.
  change (Some 1%R - Some (95 / 100)%R)%num with (Some (1 - 95 / 100)%R).
  change (Some 1%R + Some (95 / 100)%R)%num with (Some (1 + 95 / 100)%R).
  rewrite !xdiv_some by lra.
  replace ((1 - 95 / 100) / 2)%R with (25 / 1000)%R by lra.
  replace ((1 + 95 / 100) / 2)%R with (975 / 1000)%R by lra.
  rewrite (norm_ppf_exact ndtri _ _ _ _ Hlo Hsem),
          (norm_ppf_exact ndtri _ _ _ _ Hhi Hsem).
  eexists. split; [reflexivity |]. cbn [mean_accuracy std_accuracy ci_95].
  repeat split.
  - f_equal; f_equal; lra.
  - unfold s, std. rewrite (sem_population (rss accs) k) by lra.
    f_equal; f_equal; lra.
Qed.

Lemma ci_95_sample_deviation_witness :
  exists rep,
    calculate_statistics ndtri_table two_trials = Returned rep
    /\ mean_accuracy rep = Some (rmean [54; 64152 / 1000]%R).
Proof.
  destruct (ci_95_sample_deviation two_trials [54; 64152 / 1000]%R [0; 2]%R ndtri_table
              (1959964 / 1000000)%R) as (rep & E & Hm & _).
  - reflexivity.
  - reflexivity.
  - cbn; lia.
  - reflexivity.
  - unfold rss, rdev, rmean, rsum; cbn; lra.
  - unfold ndtri_table. xlit. rewrite xltb_some.
    destruct (Rlt_dec (975 / 1000) (1 / 2)); [lra | reflexivity].
  - unfold ndtri_table. xlit. rewrite xltb_some.
    destruct (Rlt_dec (25 / 1000) (1 / 2)); [| lra]. cbn. f_equal. lra.
  - unfold Rminus. rewrite Rplus_opp_r, Rabs_R0. lra.
  - exists rep. split; assumption.
Defined.

(** C2, as stated, fails: on an analysis with no trials the calculator
    does not end in an EmptyResultSet error. *)
Lemma no_EmptyResultSet_error :
  calculate_statistics ndtri_table (init (A := float)) <> Raised EmptyResultSet.
Proof. vm_compute. discriminate. Qed.

(** C2, amended.  The calculator has no guard for k = 0.  On an analysis
    with no trials the mean, the deviation and both interval bounds
    evaluate to NaN (0/0), and the percentile has no element to index: the
    call ends in the array library's index error, not in an EmptyResultSet
    error.  This holds in double precision and in exact arithmetic alike. *)
Theorem statistics_empty :
  (forall ndtri : float -> float,
      calculate_statistics ndtri init = Raised IndexError
      /\ is_nan (np_mean (@nil float)) = true
      /\ is_nan (np_std 0 (@nil float)) = true
      /\ is_nan (fst (norm_interval ndtri (lit 95 100) (np_mean []) (stats_sem []))) = true
      /\ is_nan (snd (norm_interval ndtri (lit 95 100) (np_mean []) (stats_sem []))) = true
      /\ np_percentile (@nil float) 99 = Raised IndexError)
  /\ (forall ndtri : xreal -> xreal,
      calculate_statistics ndtri init = Raised IndexError
      /\ np_mean (@nil xreal) = None
      /\ np_std 0 (@nil xreal) = None
      /\ norm_interval ndtri (lit 95 100) (np_mean []) (stats_sem []) = (None, None)
      /\ np_percentile (@nil xreal) 99 = Raised IndexError).
Proof.
  split; intros ndtri.
  - repeat split; vm_compute; reflexivity.
  - assert (Em : np_mean (@nil xreal) = None) by apply xdiv_zero.
    assert (Ep : np_percentile (@nil xreal) 99 = Raised IndexError).
    { unfold np_percentile, sort. cbn [fold_right]. now rewrite index_empty. }
    repeat split; try assumption.
    + unfold calculate_statistics. cbn [results init response_time]. now rewrite Ep.
    + unfold np_std.
      change (np_var 0 (@nil xreal)) with (div (Some 0%R) (Some 0%R)).
      now rewrite xdiv_zero.
    + unfold norm_interval, norm_ppf. rewrite Em. cbn [eqb exact XR.test2].
      now rewrite !andb_false_r.
Qed.

(** ** Zero, NaN and how they propagate *)

Lemma SFeqb_refl (f : spec_float) : f <> S754_nan -> SFeqb f f = true.
Proof.
  destruct f as [s | s | | s m e]; intros Hf.
  - reflexivity.
  - now destruct s.
  - now elim Hf.
  - unfold SFeqb, SFcompare.
    rewrite Z.compare_refl, Pos.compare_cont_refl. now destruct s.
Qed.

Lemma b64_is_nan (x : float) : is_nan x = true <-> Prim2SF x = S754_nan.
Proof.
  unfold is_nan. cbn [eqb binary64]. rewrite FloatAxioms.eqb_spec. split.
  - destruct (Prim2SF x) eqn:E; try reflexivity; intros H;
      rewrite SFeqb_refl in H by discriminate; discriminate.
  - intros ->. reflexivity.
Qed.

Lemma b64_zero_or_nan (x : float) :
  zero_or_nan x = true <-> zn_shape (Prim2SF x).
Proof.
  unfold zero_or_nan, is_zero, is_nan. cbn [eqb of_Z binary64 B64.of_Z].
  rewrite !FloatAxioms.eqb_spec.
  change (Prim2SF PrimFloat.zero) with (S754_zero false).
  destruct (Prim2SF x) as [s | s | | s m e] eqn:E.
  - cbn. tauto.
  - destruct s; cbn; split; [discriminate | tauto | discriminate | tauto].
  - cbn. tauto.
  - rewrite (SFeqb_refl (S754_finite s m e)) by discriminate.
    destruct s; cbn; split; [discriminate | tauto | discriminate | tauto].
Qed.

Ltac b64_spec :=
  cbn [add sub mul div sqrt abs ltb binary64];
  rewrite ?b64_zero_or_nan, ?b64_is_nan in *;
  rewrite ?mul_spec, ?add_spec, ?div_spec, ?sqrt_spec, ?abs_spec, ?ltb_spec.

Ltac b64_cases a :=
  let s := fresh "s" in let m := fresh "m" in let e := fresh "e" in
  destruct (Prim2SF a) as [s | s | | s m e]; try contradiction; try discriminate.

#[export] Instance binary64_laws : NaNLaws float.
Proof.
  constructor.
  - reflexivity.
  - intros a b Ha Hb. b64_spec. b64_cases a; b64_cases b; try exact I.
    destruct s, s0; exact I.
  - intros a b Ha. b64_spec. b64_cases a; b64_cases b; exact I.
  - intros a b Hb. b64_spec. b64_cases b; b64_cases a; exact I.
  - intros a b Ha. b64_spec. b64_cases a; b64_cases b; exact I.
  - intros a Ha. b64_spec. b64_cases a; exact I.
  - intros a b Ha Hb. b64_spec. b64_cases a; b64_cases b; reflexivity.
  - intros a b Ha. b64_spec. rewrite Ha. reflexivity.
  - intros a b Hb. b64_spec. rewrite Hb. now destruct (Prim2SF a).
  - intros a b Ha. b64_spec. rewrite Ha. reflexivity.
  - intros a b Ha. b64_spec. rewrite Ha. reflexivity.
  - intros a b Hb. b64_spec. rewrite Hb. now destruct (Prim2SF a).
  - intros a Ha. b64_spec. rewrite Ha. reflexivity.
  - intros a b Ha. apply b64_is_nan in Ha. b64_spec. rewrite Ha. reflexivity.
  - intros a b Hb. apply b64_is_nan in Hb. b64_spec. rewrite Hb.
    now destruct (Prim2SF a).
Qed.

Lemma exact_is_nan (x : xreal) : is_nan x = true <-> x = None.
Proof.
  unfold is_nan. destruct x as [a |]; cbn.
  - destruct (Req_dec_T a a) as [_ | N]; [| now elim N]. split; discriminate.
  - tauto.
Qed.

Lemma exact_zero_or_nan (x : xreal) :
  zero_or_nan x = true <-> x = Some 0%R \/ x = None.
Proof.
  unfold zero_or_nan, is_zero, is_nan. destruct x as [a |]; cbn.
  - destruct (Req_dec_T a a) as [_ | N']; [| now elim N'].
    destruct (Req_dec_T a 0) as [E | N]; cbn.
    + subst. split; auto.
    + split; [discriminate |].
      intros [E | E]; [injection E as E; contradiction | discriminate].
  - tauto.
Qed.

Ltac exact_spec :=
  rewrite ?exact_zero_or_nan, ?exact_is_nan in *;
  repeat match goal with
         | H : _ \/ _ |- _ => destruct H
         end; subst.

#[export] Instance exact_laws : NaNLaws xreal.
Proof.
  constructor.
  - apply exact_zero_or_nan. now left.
  - intros a b Ha Hb. exact_spec; cbn; auto. left. f_equal. lra.
  - intros a [b |] Ha; exact_spec; cbn; auto. left. f_equal. lra.
  - intros [a |] b Hb; exact_spec; cbn; auto. left. f_equal. lra.
  - intros a [b |] Ha; exact_spec; cbn; auto.
    destruct (Req_dec_T b 0); auto. left. f_equal. lra.
  - intros a Ha. exact_spec; cbn; auto.
    destruct (Rlt_dec 0 0); auto. left. f_equal. apply sqrt_0.
  - intros a b Ha Hb. exact_spec; cbn; auto.
    destruct (Req_dec_T 0 0) as [_ | N]; [reflexivity | now elim N].
  - intros a b Ha. exact_spec. reflexivity.
  - intros [a |] b Hb; exact_spec; reflexivity.
  - intros a b Ha. exact_spec. reflexivity.
  - intros a b Ha. exact_spec. reflexivity.
  - intros [a |] b Hb; exact_spec; reflexivity.
  - intros a Ha. exact_spec. reflexivity.
  - intros a b Ha. apply exact_is_nan in Ha. subst. reflexivity.
  - intros [a |] b Hb; apply exact_is_nan in Hb; subst; reflexivity.
Qed.

(** ** The sensitivity analyser on degenerate data *)

Section Degenerate.

Context {A : Type} `{NA : Num A} `{LA : !NaNLaws A}.

Lemma zn_fold (l : list A) (acc : A) :
  zero_or_nan acc = true ->
  Forall (fun d => zero_or_nan d = true) l ->
  zero_or_nan (fold_left add l acc) = true.
Proof.
  revert acc. induction l as [| x l IH]; intros acc Hacc Hl; [assumption |].
  inversion Hl; subst. cbn [fold_left]. apply IH; [now apply zn_add | assumption].
Qed.

Lemma zn_dot_l (u v : list A) :
  Forall (fun d => zero_or_nan d = true) u -> zero_or_nan (dot u v) = true.
Proof.
  intros Hu. unfold dot, np_sum. apply zn_fold; [apply zn_zero |].
  apply Forall_forall. intros y Hy.
  apply in_map_iff in Hy as ([a b] & <- & Hin). cbn [fst snd].
  apply zn_mul_l. rewrite Forall_forall in Hu. apply Hu.
  eapply in_combine_l; eassumption.
Qed.

Lemma zn_dot_r (u v : list A) :
  Forall (fun d => zero_or_nan d = true) v -> zero_or_nan (dot u v) = true.
Proof.
  intros Hv. unfold dot, np_sum. apply zn_fold; [apply zn_zero |].
  apply Forall_forall. intros y Hy.
  apply in_map_iff in Hy as ([a b] & <- & Hin). cbn [fst snd].
  apply zn_mul_r. rewrite Forall_forall in Hv. apply Hv.
  eapply in_combine_r; eassumption.
Qed.

Lemma np_clip_nan (x lo hi : A) :
  is_nan x = true -> is_nan (np_clip x lo hi) = true.
Proof.
  intros Hx. unfold np_clip.
  now rewrite (nan_ltb_l x lo Hx), (nan_ltb_r hi x Hx).
Qed.

(** A degenerate first argument makes the correlation 0/0. *)
Lemma np_corrcoef_degenerate_l (x y : list A) :
  degenerate x -> is_nan (np_corrcoef x y) = true.
Proof.
  intros Hx. unfold np_corrcoef. apply np_clip_nan, nan_div_l, zn_div_zn.
  - unfold np_cov. now apply zn_mul_l, zn_dot_l.
  - apply zn_sqrt. unfold np_cov. now apply zn_mul_l, zn_dot_l.
Qed.

(** So does a degenerate second argument. *)
Lemma np_corrcoef_degenerate_r (x y : list A) :
  degenerate y -> is_nan (np_corrcoef x y) = true.
Proof.
  intros Hy. unfold np_corrcoef. apply np_clip_nan, zn_div_zn.
  - apply zn_div_l. unfold np_cov. now apply zn_mul_l, zn_dot_r.
  - apply zn_sqrt. unfold np_cov. now apply zn_mul_l, zn_dot_l.
Qed.

Lemma fold_add_nan (l : list A) (acc : A) :
  is_nan acc = true \/ Exists (fun v => is_nan v = true) l ->
  is_nan (fold_left add l acc) = true.
Proof.
  revert acc. induction l as [| x l IH]; intros acc [Hacc | Hl]; cbn [fold_left].
  - assumption.
  - inversion Hl.
  - apply IH. left. now apply nan_add_l.
  - apply IH. inversion Hl; subst; [left; now apply nan_add_r | now right].
Qed.

(** One NaN among the correlations makes the total NaN, and with it every
    contribution. *)
Lemma normalize_nan (c : Factors A) :
  Exists (fun v => is_nan v = true) (values c) -> all_nan (normalize c).
Proof.
  intros Hc.
  assert (Ht : is_nan (total c) = true).
  { unfold total. apply fold_add_nan. right.
    apply Exists_exists in Hc as (v & Hin & Hv).
    apply Exists_exists. exists (abs v). split; [now apply in_map | now apply nan_abs]. }
  unfold all_nan, normalize, values. cbn [of_data_completeness of_symptom_clarity
    of_workflow_variation of_response_time].
  repeat constructor; now apply nan_mul_l, nan_div_r.
Qed.

(** C3, amended.  The analyser has no policy for degenerate data and no
    error path: it always returns a mapping.  If any of the four factors
    has zero variance (every deviation from its mean is zero), that
    factor's correlation is 0/0 = NaN, the total of the absolute
    correlations is NaN, and all four contributions are NaN; this covers
    the case of all four factors being degenerate at once. *)
Theorem sensitivity_degenerate (self : CDSSStatisticalAnalysis A) :
  let r := results self in
  degenerate (data_completeness r)
  \/ degenerate (map of_Z (symptom_clarity r))
  \/ degenerate (map of_Z (workflow_variation r))
  \/ degenerate (response_time r) ->
  all_nan (sensitivity_analysis self)
  /\ is_nan (total (correlations self)) = true
  /\ (degenerate (data_completeness r) ->
      is_nan (of_data_completeness (correlations self)) = true)
  /\ (degenerate (map of_Z (symptom_clarity r)) ->
      is_nan (of_symptom_clarity (correlations self)) = true)
  /\ (degenerate (map of_Z (workflow_variation r)) ->
      is_nan (of_workflow_variation (correlations self)) = true)
  /\ (degenerate (response_time r) ->
      is_nan (of_response_time (correlations self)) = true).
Proof.
  intros r Hdeg.
  assert (Hex : Exists (fun v => is_nan v = true) (values (correlations self))).
  { unfold values, correlations. fold r.
    cbn [of_data_completeness of_symptom_clarity of_workflow_variation
         of_response_time].
    destruct Hdeg as [H | [H | [H | H]]].
    - apply Exists_cons_hd. now apply np_corrcoef_degenerate_l.
    - apply Exists_cons_tl, Exists_cons_hd. now apply np_corrcoef_degenerate_l.
    - do 2 apply Exists_cons_tl. apply Exists_cons_hd.
      now apply np_corrcoef_degenerate_l.
    - do 3 apply Exists_cons_tl. apply Exists_cons_hd.
      now apply np_corrcoef_degenerate_l. }
  split; [| split].
  - now apply normalize_nan.
  - unfold total. apply fold_add_nan. right.
    apply Exists_exists in Hex as (v & Hin & Hv).
    apply Exists_exists. exists (abs v). split; [now apply in_map | now apply nan_abs].
  - repeat split; intros H; now apply np_corrcoef_degenerate_l.
Qed.

(** When the accuracy itself is constant, every correlation is NaN. *)
Lemma sensitivity_constant_accuracy (self : CDSSStatisticalAnalysis A) :
  degenerate (accuracy (results self)) -> all_nan (sensitivity_analysis self).
Proof.
  intros H. apply normalize_nan. apply Exists_cons_hd.
  now apply np_corrcoef_degenerate_r.
Qed.

End Degenerate.

Lemma sensitivity_degenerate_witness :
  all_nan (sensitivity_analysis constant_clarity).
Proof.
  apply (sensitivity_degenerate constant_clarity).
  right; left. repeat constructor.
Defined.

(** C3, as stated, fails: with symptom_clarity constant over two trials,
    its contribution is not 0 but NaN, and the other three contributions
    are NaN as well instead of summing to 100. *)
Lemma constant_clarity_all_nan :
  let s := sensitivity_analysis constant_clarity in
  eqb (of_symptom_clarity s) (of_Z 0) = false
  /\ is_nan (of_symptom_clarity s) = true
  /\ is_nan (of_data_completeness s) = true
  /\ is_nan (of_workflow_variation s) = true
  /\ is_nan (of_response_time s) = true
  /\ eqb (add (add (of_data_completeness s) (of_workflow_variation s))
              (of_response_time s)) (of_Z 100) = false.
Proof. vm_compute. repeat split. Qed.

(** C7, as stated, fails: over these two trials every factor varies, yet
    the accuracy is the same in both, every correlation is 0/0 and the four
    contributions are NaN: they are not non-negative and do not sum to 100. *)
Lemma equal_accuracy_not_normalized :
  let r := results equal_accuracy in
  let s := sensitivity_analysis equal_accuracy in
  length (accuracy r) = 2%nat
  /\ ltb (of_Z 0) (np_var 0 (data_completeness r)) = true
  /\ ltb (of_Z 0) (np_var 0 (map of_Z (symptom_clarity r)) : float) = true
  /\ ltb (of_Z 0) (np_var 0 (map of_Z (workflow_variation r)) : float) = true
  /\ ltb (of_Z 0) (np_var 0 (response_time r)) = true
  /\ leb (abs (sub (fold_left add (values s) (of_Z 0)) (of_Z 100)))
         (lit 1 1000000) = false
  /\ leb (of_Z 0) (of_data_completeness s) = false.
Proof. vm_compute. repeat split. Qed.

(** ** The sensitivity analyser in exact arithmetic *)

Lemma products_exact (u v : list R) :
  map (fun p : xreal * xreal => (fst p * snd p)%num)
      (combine (map Some u) (map Some v))
  = map Some (map (fun p => (fst p * snd p)%R) (combine u v)).
Proof.
  revert v. induction u as [| a u IH]; intros [| b v]; try reflexivity.
  cbn [map combine fst snd]. now rewrite IH.
Qed.

Lemma dot_exact (u v : list R) : dot (map Some u) (map Some v) = Some (rdot u v).
Proof. unfold dot. now rewrite products_exact, np_sum_exact. Qed.

Lemma np_cov_exact (x y : list R) :
  (2 <= length x)%nat -> np_cov (map Some x) (map Some y) = Some (rcov x y).
Proof.
  intros Hk. unfold np_cov.
  rewrite !deviations_exact, dot_exact, length_map, Z.max_l by lia.
  xlit. rewrite xdiv_some; [reflexivity |].
  assert (0 < IZR (Z.of_nat (length x) - 1))%R by (apply IZR_lt; lia). lra.
Qed.

Lemma rdot_self (d : list R) : rdot d d = rsum (map (fun a => (a * a)%R) d).
Proof.
  unfold rdot. f_equal. induction d as [| a d IH]; [reflexivity |].
  cbn [combine map fst snd]. now rewrite IH.
Qed.

Lemma rcov_self_pos (x : list R) :
  (2 <= length x)%nat -> (0 < rss x)%R -> (0 < rcov x x)%R.
Proof.
  intros Hk Hss. unfold rcov. rewrite rdot_self. fold (rss x).
  assert (0 < IZR (Z.of_nat (length x) - 1))%R by (apply IZR_lt; lia).
  apply Rmult_lt_0_compat; [assumption |].
  apply Rmult_lt_0_compat; [lra | now apply Rinv_0_lt_compat].
Qed.

Lemma np_clip_exact (r : R) :
  np_clip (Some r) (of_Z (-1)) (of_Z 1) = Some (rclip r).
Proof.
  unfold np_clip, rclip. xlit. rewrite !xltb_some.
  destruct (Rlt_dec r (-1)); [reflexivity |].
  destruct (Rlt_dec 1 r); reflexivity.
Qed.

Lemma np_corrcoef_exact (x y : list R) :
  (2 <= length x)%nat -> (2 <= length y)%nat ->
  (0 < rss x)%R -> (0 < rss y)%R ->
  np_corrcoef (map Some x) (map Some y) = Some (rcorr x y).
Proof.
  intros Hx Hy Sx Sy. unfold np_corrcoef, rcorr.
  pose proof (rcov_self_pos x Hx Sx) as Vx.
  pose proof (rcov_self_pos y Hy Sy) as Vy.
  pose proof (sqrt_lt_R0 _ Vx). pose proof (sqrt_lt_R0 _ Vy).
  rewrite !np_cov_exact by assumption.
  rewrite !xsqrt_some, !xdiv_some by lra.
  apply np_clip_exact.
Qed.

Lemma rclip_nonzero (r : R) : r <> 0%R -> rclip r <> 0%R.
Proof.
  intros Hr. unfold rclip.
  destruct (Rlt_dec r (-1)); [lra |]. destruct (Rlt_dec 1 r); [lra | assumption].
Qed.

Lemma rcorr_nonzero (x y : list R) :
  (2 <= length x)%nat -> (2 <= length y)%nat ->
  (0 < rss x)%R -> (0 < rss y)%R ->
  rdot (rdev x) (rdev y) <> 0%R -> rcorr x y <> 0%R.
Proof.
  intros Hx Hy Sx Sy Hd. unfold rcorr. apply rclip_nonzero.
  pose proof (sqrt_lt_R0 _ (rcov_self_pos x Hx Sx)).
  pose proof (sqrt_lt_R0 _ (rcov_self_pos y Hy Sy)).
  assert (Hc : rcov x y <> 0%R).
  { unfold rcov.
    assert (0 < IZR (Z.of_nat (length x) - 1))%R by (apply IZR_lt; lia).
    apply Rmult_integral_contrapositive. split; [assumption |].
    apply Rgt_not_eq. apply Rmult_lt_0_compat; [lra | now apply Rinv_0_lt_compat]. }
  unfold Rdiv.
  apply Rmult_integral_contrapositive_currified;
    [apply Rmult_integral_contrapositive_currified; [exact Hc |] |];
    apply Rinv_neq_0_compat; lra.
Qed.

(** The normalisation step on four defined correlations whose absolute
    values do not all vanish. *)
Lemma normalize_exact (c1 c2 c3 c4 : R) :
  let t := (0 + Rabs c1 + Rabs c2 + Rabs c3 + Rabs c4)%R in
  t <> 0%R ->
  normalize (mkFactors (Some c1) (Some c2) (Some c3) (Some c4))
  = mkFactors (Some (Rabs c1 / t * 100)%R) (Some (Rabs c2 / t * 100)%R)
              (Some (Rabs c3 / t * 100)%R) (Some (Rabs c4 / t * 100)%R).
Proof.
  intros t Ht. unfold normalize.
  change (total (mkFactors (Some c1) (Some c2) (Some c3) (Some c4))) with (Some t).
  cbn [of_data_completeness of_symptom_clarity of_workflow_variation
       of_response_time abs exact option_map].
  rewrite !xdiv_some by assumption. reflexivity.
Qed.

Example two_trials_accuracy :
  accuracy_percent (Some (6 / 10)%R) 5 0 (Some 0%R) = Some 54%R
  /\ accuracy_percent (Some 1%R) 4 1 (Some 2%R) = Some (64152 / 1000)%R.
Proof.
  rewrite !accuracy_percent_exact. unfold Rmin.
  destruct (Rle_dec (0 / 10) (1 / 10)), (Rle_dec (2 / 10) (1 / 10));
    try lra; split; f_equal; lra.
Qed.

(** C7, amended.  For a result set of k >= 2 trials in which no input
    factor is degenerate, the accuracy values are not all equal, and at
    least one factor has a non-zero covariance with the accuracy, the four
    contributions are defined, non-negative and sum to 100 (exactly, in
    exact arithmetic, hence within 1e-6). *)
Theorem sensitivity_normalized (self : CDSSStatisticalAnalysis xreal)
    (acc rt dc : list R) (sc wv : list Z) (k : nat) :
  results self = mkResults (map Some acc) (map Some rt) (map Some dc) sc wv ->
  (2 <= k)%nat -> lengths (results self) k ->
  (0 < rss dc)%R -> (0 < rss (map IZR sc))%R ->
  (0 < rss (map IZR wv))%R -> (0 < rss rt)%R ->
  (0 < rss acc)%R ->
  rdot (rdev dc) (rdev acc) <> 0%R
  \/ rdot (rdev (map IZR sc)) (rdev acc) <> 0%R
  \/ rdot (rdev (map IZR wv)) (rdev acc) <> 0%R
  \/ rdot (rdev rt) (rdev acc) <> 0%R ->
  exists p1 p2 p3 p4 : R,
    sensitivity_analysis self
    = mkFactors (Some p1) (Some p2) (Some p3) (Some p4)
    /\ (0 <= p1)%R /\ (0 <= p2)%R /\ (0 <= p3)%R /\ (0 <= p4)%R
    /\ (p1 + p2 + p3 + p4 = 100)%R
    /\ (Rabs (p1 + p2 + p3 + p4 - 100) <= 1 / 1000000)%R.
Proof.
  intros Hres Hk Hlen Sdc Ssc Swv Srt Sacc Hcov.
  rewrite Hres in Hlen. destruct Hlen as (La & Lr & Ld & Ls & Lw).
  cbn [accuracy response_time data_completeness symptom_clarity
       workflow_variation] in La, Lr, Ld, Ls, Lw.
  rewrite length_map in La, Lr, Ld.
  assert (Ls' : length (map IZR sc) = k) by now rewrite length_map.
  assert (Lw' : length (map IZR wv) = k) by now rewrite length_map.
  set (c1 := rcorr dc acc). set (c2 := rcorr (map IZR sc) acc).
  set (c3 := rcorr (map IZR wv) acc). set (c4 := rcorr rt acc).
  assert (Ec : correlations self
               = mkFactors (Some c1) (Some c2) (Some c3) (Some c4)).
  { unfold correlations. rewrite Hres.
    cbn [accuracy response_time data_completeness symptom_clarity
         workflow_variation].
    change (map of_Z sc) with (map (fun z => Some (IZR z)) sc).
    change (map of_Z wv) with (map (fun z => Some (IZR z)) wv).
    rewrite <- !(map_map IZR Some).
    rewrite !np_corrcoef_exact by (assumption || lia). reflexivity. }
  set (t := (0 + Rabs c1 + Rabs c2 + Rabs c3 + Rabs c4)%R).
  pose proof (Rabs_pos c1) as P1. pose proof (Rabs_pos c2) as P2.
  pose proof (Rabs_pos c3) as P3. pose proof (Rabs_pos c4) as P4.
  assert (Ht : (0 < t)%R).
  { assert (Hnz : c1 <> 0%R \/ c2 <> 0%R \/ c3 <> 0%R \/ c4 <> 0%R).
    { destruct Hcov as [H | [H | [H | H]]];
        [left | right; left | right; right; left | right; right; right];
        apply rcorr_nonzero; first [assumption | lia]. }
    unfold t.
    destruct Hnz as [H | [H | [H | H]]]; apply Rabs_pos_lt in H; lra. }
  exists (Rabs c1 / t * 100)%R, (Rabs c2 / t * 100)%R,
         (Rabs c3 / t * 100)%R, (Rabs c4 / t * 100)%R.
  assert (Hq : forall a, (0 <= a)%R -> (0 <= a / t * 100)%R).
  { intros a Ha. apply Rmult_le_pos; [| lra].
    apply Rmult_le_pos; [assumption | left; now apply Rinv_0_lt_compat]. }
  assert (Hsum : (Rabs c1 / t * 100 + Rabs c2 / t * 100 + Rabs c3 / t * 100
                  + Rabs c4 / t * 100 = 100)%R).
  { assert (Et : (Rabs c1 + Rabs c2 + Rabs c3 + Rabs c4 = t)%R)
      by (unfold t; lra).
    transitivity ((Rabs c1 + Rabs c2 + Rabs c3 + Rabs c4) / t * 100)%R;
      [field; lra | rewrite Et; field; lra]. }
  repeat split; try (apply Hq; assumption).
  - unfold sensitivity_analysis. rewrite Ec. apply normalize_exact. fold t. lra.
  - exact Hsum.
  - rewrite Hsum. unfold Rminus. rewrite Rplus_opp_r, Rabs_R0. lra.
Qed.

Lemma sensitivity_normalized_witness :
  exists p1 p2 p3 p4 : R,
    sensitivity_analysis two_trials
    = mkFactors (Some p1) (Some p2) (Some p3) (Some p4)
    /\ (p1 + p2 + p3 + p4 = 100)%R.
Proof.
  destruct (sensitivity_normalized two_trials [54; 64152 / 1000]%R [0; 2]%R
              [6 / 10; 1]%R [5; 4]%Z [0; 1]%Z 2)
    as (p1 & p2 & p3 & p4 & E & _ & _ & _ & _ & Hsum & _).
  - reflexivity.
  - lia.
  - repeat split.
  - unfold rss, rdev, rmean, rsum; cbn; lra.
  - unfold rss, rdev, rmean, rsum; cbn; lra.
  - unfold rss, rdev, rmean, rsum; cbn; lra.
  - unfold rss, rdev, rmean, rsum; cbn; lra.
  - unfold rss, rdev, rmean, rsum; cbn; lra.
  - left. unfold rdot, rdev, rmean, rsum; cbn; lra.
  - exists p1, p2, p3, p4. split; assumption.
Defined.

(** * Further properties of the code *)

(** ** The stored accuracies follow the stored samples *)

Section Consistency.

Context {A : Type} `{NA : Num A} {G : Type} `{RS : RandomSource A G}.

Lemma model_accuracies_app (dc dc' : list A) (sc sc' wv wv' : list Z)
    (rt rt' : list A) (n : nat) :
  length dc = n -> length sc = n -> length wv = n -> length rt = n ->
  model_accuracies (dc ++ dc') (sc ++ sc') (wv ++ wv') (rt ++ rt')
  = model_accuracies dc sc wv rt ++ model_accuracies dc' sc' wv' rt'.
Proof.
  revert dc sc wv rt.
  induction n as [| n IH]; intros dc sc wv rt Hd Hs Hw Ht;
    destruct dc, sc, wv, rt; try discriminate; cbn [app model_accuracies].
  - reflexivity.
  - cbn in Hd, Hs, Hw, Ht. f_equal. apply IH; congruence.
Qed.

Lemma consistent_app (r1 r2 : Results A) (n : nat) :
  lengths r1 n -> consistent r1 -> consistent r2 ->
  consistent (app_results r1 r2).
Proof.
  intros (_ & Lr & Ld & Ls & Lw) C1 C2. unfold consistent, app_results in *.
  cbn [accuracy response_time data_completeness symptom_clarity
       workflow_variation].
  rewrite (model_accuracies_app _ _ _ _ _ _ _ _ n) by assumption.
  now rewrite C1, C2.
Qed.

Lemma iteration_consistent (g : G) :
  consistent (fst (iteration empty_results g)).
Proof.
  unfold iteration.
  destruct (random_uniform (lit 6 10) (of_Z 1) g) as [dc g1].
  destruct (random_randint 1 6 g1) as [sc g2].
  destruct (random_choice (range 8) g2) as [wv g3].
  destruct (random_exponential (of_Z 2) g3) as [rt g4].
  reflexivity.
Qed.

Lemma iterations_consistent (n : nat) (g : G) :
  consistent (fst (iterations n empty_results g)).
Proof.
  revert g. induction n as [| n IH]; intros g; cbn [iterations].
  - reflexivity.
  - pose proof (iteration_consistent g) as C1.
    pose proof (iteration_lengths g) as L1.
    destruct (iteration empty_results g) as [r1 g1]; cbn [fst] in C1, L1.
    rewrite iterations_app; cbn [fst].
    apply (consistent_app r1 _ 1); [assumption | assumption | apply IH].
Qed.

(** X1.  The simulation keeps the five lists aligned trial by trial: if
    the lists have one common length and every stored accuracy is the
    model's value on the sample stored at the same position (as on a fresh
    object), then the same holds after any number of calls. *)
Theorem simulation_keeps_consistency (m : nat) (self : CDSSStatisticalAnalysis A)
    (g : G) (l : nat) :
  lengths (results self) l -> consistent (results self) ->
  consistent (results (fst (simulate_times m self g))).
Proof.
  revert self g l. induction m as [| m IH]; intros self g l Hl Hc;
    cbn [simulate_times].
  - assumption.
  - rewrite simulate_app.
    apply (IH _ _ (l + n_iterations self)%nat); cbn [results].
    + apply lengths_app; [assumption | apply iterations_lengths].
    + apply (consistent_app _ _ l); [assumption | assumption |].
      apply iterations_consistent.
Qed.

End Consistency.

Lemma simulation_keeps_consistency_witness :
  consistent (results (fst (simulate_times 2
                              (mkAnalysis 3 (empty_results (A := float))) 0%Z))).
Proof.
  apply (simulation_keeps_consistency 2 (mkAnalysis 3 empty_results) 0%Z 0).
  - repeat split.
  - reflexivity.
Defined.

(** ** Shape of the accuracy model *)

Lemma accuracy_percent_raccuracy (dc rt : R) (sc wv : Z) :
  accuracy_percent (Some dc) sc wv (Some rt) = Some (raccuracy dc sc wv rt).
Proof. apply accuracy_percent_exact. Qed.

Lemma Rmin_penalty_mono (rt1 rt2 : R) :
  (rt2 <= rt1)%R -> (Rmin (rt2 / 10) (1 / 10) <= Rmin (rt1 / 10) (1 / 10))%R.
Proof.
  intros H. unfold Rmin.
  destruct (Rle_dec (rt2 / 10) (1 / 10)), (Rle_dec (rt1 / 10) (1 / 10)); lra.
Qed.

Lemma Rmin_penalty_saturated (rt : R) :
  (1 <= rt)%R -> Rmin (rt / 10) (1 / 10) = (1 / 10)%R.
Proof.
  intros H. unfold Rmin. destruct (Rle_dec (rt / 10) (1 / 10)); lra.
Qed.

Lemma Rmin_penalty_le (rt : R) : (Rmin (rt / 10) (1 / 10) <= 1 / 10)%R.
Proof. unfold Rmin. destruct (Rle_dec (rt / 10) (1 / 10)); lra. Qed.

(** X2.  The accuracy never decreases when data completeness or symptom
    clarity grow and never increases when workflow variation or response
    time grow (for non-negative completeness and clarity and a workflow
    variation of at most 100); and once the response time has reached 1 the
    penalty is saturated: any larger response time gives the same accuracy. *)
Theorem accuracy_monotone_saturating (dc1 dc2 rt1 rt2 : R) (sc1 sc2 wv1 wv2 : Z) :
  (0 <= dc1 <= dc2)%R -> (0 <= sc1 <= sc2)%Z -> (0 <= wv2 <= wv1)%Z ->
  (wv1 <= 100)%Z -> (rt2 <= rt1)%R ->
  exists a1 a2 : R,
    accuracy_percent (Some dc1) sc1 wv1 (Some rt1) = Some a1
    /\ accuracy_percent (Some dc2) sc2 wv2 (Some rt2) = Some a2
    /\ (a1 <= a2)%R
    /\ ((1 <= rt2)%R ->
        accuracy_percent (Some dc1) sc1 wv1 (Some rt2) = Some a1).
Proof.
  intros Hdc [Hs0 Hs] [Hw0 Hw] Hw100 Hrt.
  exists (raccuracy dc1 sc1 wv1 rt1), (raccuracy dc2 sc2 wv2 rt2).
  rewrite !accuracy_percent_raccuracy. repeat split.
  - unfold raccuracy.
    pose proof (Rmin_penalty_mono rt1 rt2 Hrt) as Hp.
    pose proof (Rmin_penalty_le rt1) as Hp1.
    apply IZR_le in Hs0, Hs, Hw0, Hw, Hw100.
    set (p1 := Rmin (rt1 / 10) (1 / 10)) in *.
    set (p2 := Rmin (rt2 / 10) (1 / 10)) in *.
    set (s1 := IZR sc1) in *. set (s2 := IZR sc2) in *.
    set (w1 := IZR wv1) in *. set (w2 := IZR wv2) in *.
    assert (H1 : (0 <= dc1 * (s1 / 5) <= dc2 * (s2 / 5))%R).
    { split; [apply Rmult_le_pos; lra |].
      apply Rmult_le_compat; lra. }
    assert (H2 : (0 <= (1 - w1 * (1 / 100)) * (1 - p1)
                  <= (1 - w2 * (1 / 100)) * (1 - p2))%R).
    { split; [apply Rmult_le_pos; lra |].
      apply Rmult_le_compat; lra. }
    assert (H3 : (dc1 * (s1 / 5) * ((1 - w1 * (1 / 100)) * (1 - p1))
                  <= dc2 * (s2 / 5) * ((1 - w2 * (1 / 100)) * (1 - p2)))%R).
    { apply Rmult_le_compat; lra. }
    lra.
  - intros H1. f_equal. unfold raccuracy.
    rewrite !Rmin_penalty_saturated by lra. reflexivity.
Qed.

Lemma accuracy_monotone_saturating_witness :
  exists a1 a2 : R,
    accuracy_percent (Some (7 / 10)%R) 2 5 (Some 30%R) = Some a1
    /\ accuracy_percent (Some (9 / 10)%R) 4 1 (Some 3%R) = Some a2
    /\ (a1 <= a2)%R.
Proof.
  destruct (accuracy_monotone_saturating (7 / 10) (9 / 10) 30 3 2 4 5 1)
    as (a1 & a2 & E1 & E2 & H & _); try lra; try lia.
  exists a1, a2. repeat split; assumption.
Defined.

(** ** More on sums and means in exact arithmetic *)

Lemma fold_plus_acc (l : list R) (a : R) :
  fold_left Rplus l a = (a + rsum l)%R.
Proof.
  unfold rsum. revert a. induction l as [| x l IH]; intros a; cbn [fold_left].
  - lra.
  - rewrite (IH (a + x)%R), (IH (0 + x)%R). lra.
Qed.

Lemma rsum_cons (x : R) (l : list R) : rsum (x :: l) = (x + rsum l)%R.
Proof.
  unfold rsum at 1. cbn [fold_left]. rewrite fold_plus_acc. lra.
Qed.

Lemma rsum_nil : rsum [] = 0%R.
Proof. reflexivity. Qed.

Lemma rsum_perm (l l' : list R) : Permutation l l' -> rsum l = rsum l'.
Proof.
  induction 1 as [| x l l' _ IH | x y l | l l' l'' _ IH1 _ IH2].
  - reflexivity.
  - rewrite !rsum_cons. lra.
  - rewrite !rsum_cons. lra.
  - congruence.
Qed.

Lemma rsum_bounds (l : list R) (lo hi : R) :
  Forall (fun x => lo <= x <= hi)%R l ->
  (IZR (Z.of_nat (length l)) * lo <= rsum l
   <= IZR (Z.of_nat (length l)) * hi)%R.
Proof.
  induction 1 as [| x l Hx _ IH].
  - unfold rsum. cbn. lra.
  - rewrite rsum_cons. cbn [length]. rewrite Nat2Z.inj_succ, succ_IZR. lra.
Qed.

Lemma rmean_bounds (l : list R) (lo hi : R) :
  l <> [] -> Forall (fun x => lo <= x <= hi)%R l -> (lo <= rmean l <= hi)%R.
Proof.
  intros Hne Hl. pose proof (rsum_bounds l lo hi Hl) as Hs.
  pose proof (count_pos l Hne) as Hk. unfold rmean.
  set (k := IZR (Z.of_nat (length l))) in *. split.
  - apply Rmult_le_reg_r with k; [assumption |].
    unfold Rdiv. rewrite Rmult_assoc, Rinv_l by lra. lra.
  - apply Rmult_le_reg_r with k; [assumption |].
    unfold Rdiv. rewrite Rmult_assoc, Rinv_l by lra. lra.
Qed.

Lemma rsum_nonneg (l : list R) : Forall (fun x => 0 <= x)%R l -> (0 <= rsum l)%R.
Proof. intros H. unfold rsum. apply fold_plus_le; [lra | assumption]. Qed.

Lemma rsum_zero (l : list R) :
  Forall (fun x => 0 <= x)%R l -> rsum l = 0%R -> Forall (fun x => x = 0%R) l.
Proof.
  induction 1 as [| x l Hx Hl IH]; intros Hs; [constructor |].
  rewrite rsum_cons in Hs. pose proof (rsum_nonneg l Hl).
  constructor; [lra | apply IH; lra].
Qed.

(** The squared deviations vanish together exactly when all values are
    equal. *)
Lemma rss_zero_iff (l : list R) :
  l <> [] ->
  rss l = 0%R <-> (forall x y, In x l -> In y l -> x = y).
Proof.
  intros Hne. split.
  - intros Hz.
    assert (Hall : forall x, In x l -> x = rmean l).
    { assert (Hsq : Forall (fun d => d = 0%R)
                      (map (fun d => (d * d)%R) (rdev l))).
      { apply rsum_zero; [| exact Hz].
        apply Forall_forall. intros d Hd.
        apply in_map_iff in Hd as (e & <- & _). nra. }
      intros x Hx. rewrite Forall_forall in Hsq.
      assert (Hd : ((x - rmean l) * (x - rmean l) = 0)%R).
      { apply Hsq. apply in_map_iff. exists (x - rmean l)%R. split; [reflexivity |].
        unfold rdev. apply in_map_iff. now exists x. }
      nra. }
    intros x y Hx Hy. rewrite (Hall x Hx), (Hall y Hy). reflexivity.
  - intros Heq. destruct l as [| c l]; [congruence |].
    assert (Hc : Forall (fun x => c <= x <= c)%R (c :: l)).
    { apply Forall_forall. intros x Hx.
      rewrite (Heq x c Hx (or_introl eq_refl)). lra. }
    pose proof (rmean_bounds (c :: l) c c Hne Hc) as Hm.
    assert (Em : rmean (c :: l) = c) by lra.
    unfold rss. 
    assert (Hz : Forall (fun d => d = 0%R)
                   (map (fun d => (d * d)%R) (rdev (c :: l)))).
    { apply Forall_forall. intros d Hd.
      apply in_map_iff in Hd as (e & <- & He).
      unfold rdev in He. apply in_map_iff in He as (x & <- & Hx).
      rewrite Em, (Heq x c Hx (or_introl eq_refl)). lra. }
    clear - Hz. induction Hz as [| d ds Hd _ IH]; [reflexivity |].
    rewrite rsum_cons, IH, Hd. lra.
Qed.

Lemma defined_list (P : R -> Prop) (l : list xreal) :
  Forall (fun v => exists a, v = Some a /\ P a) l ->
  exists l' : list R, l = map Some l' /\ Forall P l'.
Proof.
  induction 1 as [| v l (a & -> & Ha) _ (l' & -> & Hl')].
  - exists []. split; [reflexivity | constructor].
  - exists (a :: l'). split; [reflexivity | now constructor].
Qed.

Lemma np_percentile_empty {A} `{Num A} (q : Z) :
  np_percentile (@nil A) q = Raised IndexError.
Proof. unfold np_percentile, sort. cbn [fold_right]. now rewrite index_empty. Qed.

(** ** The statistics calculator on defined data *)

(** The report on at least one trial. *)
Lemma calculate_statistics_report (self : CDSSStatisticalAnalysis xreal)
    (accs rts : list R) (ndtri : xreal -> xreal) :
  accuracy (results self) = map Some accs ->
  response_time (results self) = map Some rts ->
  accs <> [] -> rts <> [] ->
  exists a : list R,
    Permutation rts a /\ Sorted Rle a /\ a <> []
    /\ calculate_statistics ndtri self
       = Returned
           (mkReport (Some (rmean accs))
              (Some (R_sqrt.sqrt (rss accs / IZR (Z.of_nat (length accs)))))
              (norm_interval ndtri (lit 95 100) (Some (rmean accs))
                 (stats_sem (map Some accs)))
              (Some (interpolated_99 a))).
Proof.
  intros Hacc Hrt Hne Hrne.
  destruct (np_percentile_exact rts Hrne) as (a & P & S & Ha & Ep).
  exists a. repeat split; try assumption.
  unfold calculate_statistics. rewrite Hacc, Hrt, Ep.
  assert (Hk : (0 < Z.of_nat (length accs))%Z)
    by (destruct accs; [congruence | cbn; lia]).
  rewrite np_mean_exact, np_std_exact, Z.sub_0_r by assumption.
  reflexivity.
Qed.

Lemma stats_sem_single (a : R) : stats_sem [Some a] = None.
Proof.
  unfold stats_sem, np_std.
  change [Some a] with (map Some [a]).
  assert (E : np_var 1 (map Some [a]) = None).
  { unfold np_var. rewrite deviations_exact, squares_exact, np_sum_exact.
    cbn [map length Z.of_nat Pos.of_succ_nat Z.sub Z.add Z.opp Z.pos_sub Z.max
         Z.compare]. xlit. apply xdiv_zero. }
  rewrite E. reflexivity.
Qed.

Lemma norm_interval_undefined_scale (ndtri : xreal -> xreal) (c loc : xreal) :
  norm_interval ndtri c loc None = (None, None).
Proof.
  unfold norm_interval, norm_ppf. xlit.
  change (Some 0%R <? None)%num with false. reflexivity.
Qed.

(** X3.  With exactly one trial the calculator does not fail: the mean is
    the single accuracy, the standard deviation is 0, the percentile is
    the single response time, and both bounds of the confidence interval
    are NaN (the standard error divides by k - 1 = 0). *)
Theorem statistics_single_trial (self : CDSSStatisticalAnalysis xreal)
    (a r : R) (ndtri : xreal -> xreal) :
  accuracy (results self) = [Some a] ->
  response_time (results self) = [Some r] ->
  calculate_statistics ndtri self
  = Returned (mkReport (Some a) (Some 0%R) (None, None) (Some r)).
Proof.
  intros Hacc Hrt.
  destruct (calculate_statistics_report self [a] [r] ndtri)
    as (s & P & _ & _ & E); try assumption; try discriminate.
  apply Permutation_length_1_inv in P. subst s.
  rewrite E. cbn [map]. rewrite stats_sem_single, norm_interval_undefined_scale.
  assert (Em : rmean [a] = a) by (unfold rmean, rsum; cbn; field).
  assert (Es : rss [a] = 0%R).
  { unfold rss, rdev. cbn [map]. rewrite Em, rsum_cons, rsum_nil. ring. }
  assert (Ep : interpolated_99 [r] = r).
  { unfold interpolated_99. cbn [length Z.of_nat Pos.of_succ_nat Z.sub Z.add
      Z.opp Z.pos_sub].
    replace (99 / 100 * 0)%R with 0%R by lra.
    assert (Ei : Int_part 0 = 0%Z) by (apply Int_part_unique; lra).
    rewrite Ei. cbn. lra. }
  rewrite Em, Es, Ep. cbn [length Z.of_nat Pos.of_succ_nat].
  replace (0 / 1)%R with 0%R by lra. rewrite sqrt_0. reflexivity.
Qed.

Lemma statistics_single_trial_witness :
  calculate_statistics ndtri_table
    (mkAnalysis 1 (mkResults [Some 54%R] [Some 0%R] [Some (6 / 10)%R] [5%Z] [0%Z]))
  = Returned (mkReport (Some 54%R) (Some 0%R) (None, None) (Some 0%R)).
Proof.
  apply (statistics_single_trial _ 54 0 ndtri_table); reflexivity.
Defined.

(** X4.  For k >= 2 accuracy values that are not all equal and a positive
    quantile z, both bounds of the confidence interval are defined and the
    interval contains the reported mean: lower <= mean <= upper. *)
Theorem ci_95_brackets_mean (self : CDSSStatisticalAnalysis xreal)
    (accs rts : list R) (ndtri : xreal -> xreal) (z : R) :
  accuracy (results self) = map Some accs ->
  response_time (results self) = map Some rts ->
  (2 <= length accs)%nat -> rts <> [] ->
  (0 < rss accs)%R ->
  ndtri (Some (975 / 1000)%R) = Some z ->
  ndtri (Some (25 / 1000)%R) = Some (- z)%R ->
  (0 < z)%R ->
  exists rep lower upper m,
    calculate_statistics ndtri self = Returned rep
    /\ ci_95 rep = (Some lower, Some upper)
    /\ mean_accuracy rep = Some m
    /\ (lower <= m <= upper)%R.
Proof.
  intros Hacc Hrt Hk Hrne Hss Hhi Hlo Hz.
  assert (Hne : accs <> []) by (destruct accs; [cbn in Hk; lia | discriminate]).
  destruct (calculate_statistics_report self accs rts ndtri Hacc Hrt Hne Hrne)
    as (a & _ & _ & _ & E).
  set (k := IZR (Z.of_nat (length accs))) in *.
  assert (Hk2 : (2 <= k)%R) by (apply IZR_le; lia).
  set (sem := (R_sqrt.sqrt (rss accs / IZR (Z.of_nat (length accs) - 1))
               / R_sqrt.sqrt k)%R).
  assert (Hsem : (0 < sem)%R).
  { unfold sem. rewrite minus_IZR. fold k.
    apply Rmult_lt_0_compat.
    - apply sqrt_lt_R0. apply Rmult_lt_0_compat; [assumption |].
      apply Rinv_0_lt_compat. lra.
    - apply Rinv_0_lt_compat, sqrt_lt_R0. lra. }
  assert (Eci : norm_interval ndtri (lit 95 100) (Some (rmean accs))
                  (stats_sem (map Some accs))
                = (Some (- z * sem + rmean accs)%R, Some (z * sem + rmean accs)%R)).
  { rewrite stats_sem_exact by assumption. fold k sem.
    unfold norm_interval. xlit. change (IZR 1) with 1%R.
    change (Some 1%R - Some (95 / 100)%R)%num with (Some (1 - 95 / 100)%R).
    change (Some 1%R + Some (95 / 100)%R)%num with (Some (1 + 95 / 100)%R).
    rewrite !xdiv_some by lra.
    replace ((1 - 95 / 100) / 2)%R with (25 / 1000)%R by lra.
    replace ((1 + 95 / 100) / 2)%R with (975 / 1000)%R by lra.
    now rewrite (norm_ppf_exact ndtri _ _ _ _ Hlo Hsem),
                (norm_ppf_exact ndtri _ _ _ _ Hhi Hsem). }
  rewrite Eci in E.
  eexists _, _, _, _. split; [exact E |]. cbn [ci_95 mean_accuracy].
  assert (0 < z * sem)%R by now apply Rmult_lt_0_compat.
  repeat split; lra.
Qed.

Lemma ci_95_brackets_mean_witness :
  exists rep lower upper m,
    calculate_statistics ndtri_table two_trials = Returned rep
    /\ ci_95 rep = (Some lower, Some upper)
    /\ mean_accuracy rep = Some m
    /\ (lower <= m <= upper)%R.
Proof.
  destruct (ci_95_brackets_mean two_trials [54; 64152 / 1000]%R [0; 2]%R
              ndtri_table (1959964 / 1000000)%R)
    as (rep & lo & hi & m & E & Eci & Em & H).
  - reflexivity.
  - reflexivity.
  - cbn; lia.
  - discriminate.
  - unfold rss, rdev, rmean, rsum; cbn; lra.
  - unfold ndtri_table. xlit. rewrite xltb_some.
    destruct (Rlt_dec (975 / 1000) (1 / 2)); [lra | reflexivity].
  - unfold ndtri_table. xlit. rewrite xltb_some.
    destruct (Rlt_dec (25 / 1000) (1 / 2)); [| lra]. cbn. f_equal. lra.
  - lra.
  - exists rep, lo, hi, m. repeat split; tauto.
Defined.

(** X5.  On at least one trial the reported standard deviation is a
    defined, non-negative number, and it can only be 0 when all accuracy
    values are equal. *)
Theorem std_accuracy_zero_only_if_equal (self : CDSSStatisticalAnalysis xreal)
    (accs rts : list R) (ndtri : xreal -> xreal) :
  accuracy (results self) = map Some accs ->
  response_time (results self) = map Some rts ->
  accs <> [] -> rts <> [] ->
  exists rep s,
    calculate_statistics ndtri self = Returned rep
    /\ std_accuracy rep = Some s
    /\ (0 <= s)%R
    /\ (s = 0%R -> forall x y, In x accs -> In y accs -> x = y).
Proof.
  intros Hacc Hrt Hne Hrne.
  destruct (calculate_statistics_report self accs rts ndtri Hacc Hrt Hne Hrne)
    as (a & _ & _ & _ & E).
  pose proof (count_pos accs Hne) as Hk.
  pose proof (rss_nonneg accs) as Hss.
  set (k := IZR (Z.of_nat (length accs))) in *.
  assert (Hq : (0 <= rss accs / k)%R).
  { apply Rmult_le_pos; [assumption | left; now apply Rinv_0_lt_compat]. }
  eexists _, _. split; [exact E |]. cbn [std_accuracy].
  split; [reflexivity |]. split; [apply sqrt_pos |].
  intros Hs. apply (rss_zero_iff accs Hne).
  apply sqrt_eq_0 in Hs; [| assumption].
  apply Rmult_eq_reg_r with (/ k)%R.
  - rewrite Rmult_0_l. exact Hs.
  - apply Rinv_neq_0_compat. lra.
Qed.

Lemma std_accuracy_zero_only_if_equal_witness :
  exists rep s,
    calculate_statistics ndtri_table two_trials = Returned rep
    /\ std_accuracy rep = Some s /\ (0 <= s)%R.
Proof.
  destruct (std_accuracy_zero_only_if_equal two_trials [54; 64152 / 1000]%R
              [0; 2]%R ndtri_table) as (rep & s & E & Es & H & _);
    try reflexivity; try discriminate.
  exists rep, s. repeat split; assumption.
Defined.

Lemma interpolated_99_bounds (a : list R) (lo hi : R) :
  a <> [] -> Forall (fun x => lo <= x <= hi)%R a ->
  (lo <= interpolated_99 a <= hi)%R.
Proof.
  intros Hne Hall. unfold interpolated_99.
  set (k := Z.of_nat (length a)).
  assert (Hk : (1 <= k)%Z) by (destruct a; [congruence | cbn in k; lia]).
  destruct (rank_99_bounds k Hk) as [Hi Hr].
  set (rank := (99 / 100 * IZR (k - 1))%R) in *.
  set (i := Int_part rank) in *.
  rewrite Forall_forall in Hall.
  assert (Hx : (lo <= nth (Z.to_nat i) a 0 <= hi)%R).
  { apply Hall, nth_In. unfold k in *. lia. }
  assert (Hy : (lo <= nth (Z.to_nat (Z.min (i + 1) (k - 1))) a 0 <= hi)%R).
  { apply Hall, nth_In. unfold k in *. lia. }
  set (x := nth (Z.to_nat i) a 0%R) in *.
  set (y := nth (Z.to_nat (Z.min (i + 1) (k - 1))) a 0%R) in *.
  set (t := (rank - IZR i)%R).
  assert (Ht : (0 <= t < 1)%R) by (unfold t; lra).
  replace (x + t * (y - x))%R with ((1 - t) * x + t * y)%R by ring.
  split; nra.
Qed.

(** X6.  On a non-empty list of response times the 99th percentile is a
    defined number lying between any lower and upper bound of the values:
    in particular it is never negative when no response time is, and never
    exceeds the largest one. *)
Theorem percentile_99_within_bounds (l : list R) (lo hi : R) :
  l <> [] -> Forall (fun x => lo <= x <= hi)%R l ->
  exists p : R,
    np_percentile (map Some l) 99 = Returned (Some p) /\ (lo <= p <= hi)%R.
Proof.
  intros Hne Hall.
  destruct (np_percentile_exact l Hne) as (a & P & _ & Ha & E).
  exists (interpolated_99 a). split; [exact E |].
  apply interpolated_99_bounds; [assumption |].
  now rewrite <- P.
Qed.

Lemma percentile_99_within_bounds_witness :
  exists p : R,
    np_percentile (map Some [3; 1; 2]%R) 99 = Returned (Some p)
    /\ (1 <= p <= 3)%R.
Proof.
  apply (percentile_99_within_bounds [3; 1; 2]%R 1 3); [discriminate |].
  repeat constructor; lra.
Defined.

(** ** The percentile does not depend on the order of the trials *)

Lemma HdRel_Forall (x : R) (l : list R) :
  Forall (fun y => x <= y)%R l -> HdRel Rle x l.
Proof. intros H. destruct H; constructor; assumption. Qed.

Lemma Sorted_Rle_Forall (x : R) (l : list R) :
  Sorted Rle (x :: l) -> Forall (fun y => x <= y)%R l.
Proof.
  intros H. apply Sorted_StronglySorted in H; [| intros a b c; apply Rle_trans].
  now inversion H.
Qed.

(** Two ascending arrangements of the same values coincide. *)
Lemma sorted_perm_eq (a b : list R) :
  Sorted Rle a -> Sorted Rle b -> Permutation a b -> a = b.
Proof.
  revert b. induction a as [| x a IH]; intros b Sa Sb P.
  - apply Permutation_nil in P. now subst.
  - destruct b as [| y b].
    + apply Permutation_sym, Permutation_nil in P. discriminate.
    + pose proof (Sorted_Rle_Forall x a Sa) as Fa.
      pose proof (Sorted_Rle_Forall y b Sb) as Fb.
      rewrite Forall_forall in Fa, Fb.
      assert (Hxy : x = y).
      { assert (Hx : In x (y :: b))
          by (apply (Permutation_in _ P); now left).
        assert (Hy : In y (x :: a))
          by (apply (Permutation_in _ (Permutation_sym P)); now left).
        destruct Hx as [Hx | Hx]; [now symmetry |].
        destruct Hy as [Hy | Hy]; [assumption |].
        apply Rle_antisym; [now apply Fa | now apply Fb]. }
      subst y. f_equal. apply IH.
      * now inversion Sa.
      * now inversion Sb.
      * now apply Permutation_cons_inv in P.
Qed.

Lemma np_percentile_perm (l l' : list R) (q : Z) :
  Permutation l l' ->
  np_percentile (map Some l) q = np_percentile (map Some l') q.
Proof.
  intros P.
  destruct (sort_exact l) as (a & E & Pa & Sa).
  destruct (sort_exact l') as (a' & E' & Pa' & Sa').
  assert (Ea : a = a').
  { apply sorted_perm_eq; try assumption.
    now rewrite <- Pa, P, Pa'. }
  unfold np_percentile. rewrite E, E', !length_map, (Permutation_length P), Ea.
  reflexivity.
Qed.

(** X7.  The 99th-percentile response time does not depend on the order
    of the trials: two analyses whose response times are rearrangements of
    one another get the same outcome from the percentile computation, and
    whenever both calculators return a report the two reports carry the
    same percentile. *)
Theorem percentile_order_independent (self self' : CDSSStatisticalAnalysis xreal)
    (rts rts' : list R) (ndtri : xreal -> xreal) :
  response_time (results self) = map Some rts ->
  response_time (results self') = map Some rts' ->
  Permutation rts rts' ->
  np_percentile (response_time (results self)) 99
  = np_percentile (response_time (results self')) 99
  /\ forall rep rep',
       calculate_statistics ndtri self = Returned rep ->
       calculate_statistics ndtri self' = Returned rep' ->
       percentile_99_response rep = percentile_99_response rep'.
Proof.
  intros Hr Hr' P.
  assert (E : np_percentile (response_time (results self)) 99
              = np_percentile (response_time (results self')) 99).
  { rewrite Hr, Hr'. now apply np_percentile_perm. }
  split; [exact E |].
  intros rep rep'. unfold calculate_statistics. rewrite E.
  destruct (np_percentile (response_time (results self')) 99) as [p | e];
    [| discriminate].
  intros H H'. 
  apply (f_equal (fun o => match o with
                           | Returned r => percentile_99_response r
                           | Raised _ => p
                           end)) in H, H'.
  cbn in H, H'. congruence.
Qed.

Lemma percentile_order_independent_witness :
  np_percentile (response_time (results two_trials)) 99
  = np_percentile (map Some [2; 0]%R) 99.
Proof.
  apply (percentile_order_independent two_trials
           (mkAnalysis 2
              (mkResults (map Some [64152 / 1000; 54]%R) (map Some [2; 0]%R)
                         (map Some [1; 6 / 10]%R) [4; 5]%Z [1; 0]%Z))
           [0; 2]%R [2; 0]%R ndtri_table);
    try reflexivity; apply perm_swap.
Defined.

(** ** The sensitivity analyser on few trials *)

Lemma degenerate_short (l : list xreal) :
  (length l <= 1)%nat -> degenerate l.
Proof.
  intros Hl. unfold degenerate.
  destruct l as [| v [| w l]]; [constructor | | cbn in Hl; lia].
  unfold deviations. cbn [map]. constructor; [| constructor].
  destruct v as [a |]; [| reflexivity].
  change [Some a] with (map Some [a]).
  rewrite np_mean_exact by discriminate.
  apply exact_zero_or_nan. left. cbn. f_equal.
  unfold rmean, rsum. cbn. field.
Qed.

(** X8.  With fewer than two trials (none, or one) the analyser does not
    fail: it returns a mapping whose four contributions are all NaN. *)
Theorem sensitivity_few_trials (self : CDSSStatisticalAnalysis xreal) (k : nat) :
  lengths (results self) k -> (k <= 1)%nat ->
  all_nan (sensitivity_analysis self).
Proof.
  intros (_ & _ & Ld & _) Hk. unfold sensitivity_analysis.
  apply normalize_nan. apply Exists_cons_hd.
  apply np_corrcoef_degenerate_l, degenerate_short. lia.
Qed.

Lemma sensitivity_few_trials_witness :
  all_nan (sensitivity_analysis
             (mkAnalysis 1
                (mkResults [Some 54%R] [Some 0%R] [Some (6 / 10)%R] [5%Z] [0%Z])))
  /\ all_nan (sensitivity_analysis (init (A := xreal))).
Proof.
  split.
  - apply (sensitivity_few_trials _ 1); [repeat split | lia].
  - apply (sensitivity_few_trials _ 0); [repeat split | lia].
Defined.

Lemma rcov_two (x1 x2 y1 y2 : R) :
  rcov [x1; x2] [y1; y2] = ((x1 - x2) * (y1 - y2) / 2)%R.
Proof.
  unfold rcov, rdot, rdev, rmean. cbn [map combine length fst snd].
  rewrite !rsum_cons, !rsum_nil. cbn. field.
Qed.

Lemma rss_two (x1 x2 : R) : rss [x1; x2] = ((x1 - x2) * (x1 - x2) / 2)%R.
Proof.
  unfold rss, rdev, rmean. cbn [map length].
  rewrite !rsum_cons, !rsum_nil. cbn. field.
Qed.

(** Over two trials a correlation is 1 or -1. *)
Lemma rcorr_two (x1 x2 y1 y2 : R) :
  x1 <> x2 -> y1 <> y2 -> Rabs (rcorr [x1; x2] [y1; y2]) = 1%R.
Proof.
  intros Hx Hy. unfold rcorr. rewrite !rcov_two.
  set (dx := (x1 - x2)%R). set (dy := (y1 - y2)%R).
  assert (Hdx : dx <> 0%R) by (unfold dx; lra).
  assert (Hdy : dy <> 0%R) by (unfold dy; lra).
  assert (Vx : (0 < dx * dx / 2)%R) by nra.
  assert (Vy : (0 < dy * dy / 2)%R) by nra.
  pose proof (sqrt_lt_R0 _ Vx) as Sx. pose proof (sqrt_lt_R0 _ Vy) as Sy.
  pose proof (sqrt_sqrt (dx * dx / 2)%R (Rlt_le _ _ Vx)) as Ex.
  pose proof (sqrt_sqrt (dy * dy / 2)%R (Rlt_le _ _ Vy)) as Ey.
  set (sx := R_sqrt.sqrt (dx * dx / 2)) in *.
  set (sy := R_sqrt.sqrt (dy * dy / 2)) in *.
  set (r := (dx * dy / 2 / sx / sy)%R).
  assert (Hr2 : (r * r = 1)%R).
  { unfold r.
    replace (dx * dy / 2 / sx / sy * (dx * dy / 2 / sx / sy))%R
      with ((dx * dx / 2) * (dy * dy / 2) / ((sx * sx) * (sy * sy)))%R
      by (field; lra).
    rewrite Ex, Ey. field. lra. }
  assert (Hr : r = 1%R \/ r = (-1)%R).
  { assert (H0 : ((r - 1) * (r + 1) = 0)%R) by lra.
    apply Rmult_integral in H0. destruct H0; [left | right]; lra. }
  unfold rclip.
  destruct Hr as [-> | ->].
  - destruct (Rlt_dec 1 (-1)); [lra |]. destruct (Rlt_dec 1 1); [lra |].
    apply Rabs_R1.
  - destruct (Rlt_dec (-1) (-1)); [lra |]. destruct (Rlt_dec 1 (-1)); [lra |].
    unfold Rabs. destruct (Rcase_abs (-1)); lra.
Qed.

(** X9.  With exactly two trials in which every factor and the accuracy
    take two different values, every correlation is 1 or -1, so the
    analyser reports 25% for each of the four factors whatever the data. *)
Theorem sensitivity_two_trials (self : CDSSStatisticalAnalysis xreal)
    (a1 a2 t1 t2 d1 d2 : R) (s1 s2 w1 w2 : Z) :
  results self
  = mkResults (map Some [a1; a2]) (map Some [t1; t2]) (map Some [d1; d2])
      [s1; s2] [w1; w2] ->
  a1 <> a2 -> t1 <> t2 -> d1 <> d2 -> s1 <> s2 -> w1 <> w2 ->
  sensitivity_analysis self
  = mkFactors (Some 25%R) (Some 25%R) (Some 25%R) (Some 25%R).
Proof.
  intros Hres Ha Ht Hd Hs Hw.
  assert (Hs' : IZR s1 <> IZR s2) by (intros E; apply eq_IZR in E; contradiction).
  assert (Hw' : IZR w1 <> IZR w2) by (intros E; apply eq_IZR in E; contradiction).
  assert (Hpos : forall x1 x2 : R, x1 <> x2 -> (0 < rss [x1; x2])%R).
  { intros x1 x2 Hx. rewrite rss_two.
    assert (x1 - x2 <> 0)%R by lra. nra. }
  unfold sensitivity_analysis, correlations. rewrite Hres.
  cbn [accuracy response_time data_completeness symptom_clarity
       workflow_variation].
  change (map of_Z [s1; s2]) with (map Some [IZR s1; IZR s2]).
  change (map of_Z [w1; w2]) with (map Some [IZR w1; IZR w2]).
  rewrite !np_corrcoef_exact by (cbn; lia || now apply Hpos).
  pose proof (rcorr_two d1 d2 a1 a2 Hd Ha) as E1.
  pose proof (rcorr_two (IZR s1) (IZR s2) a1 a2 Hs' Ha) as E2.
  pose proof (rcorr_two (IZR w1) (IZR w2) a1 a2 Hw' Ha) as E3.
  pose proof (rcorr_two t1 t2 a1 a2 Ht Ha) as E4.
  rewrite normalize_exact; rewrite E1, E2, E3, E4; [| lra].
  repeat f_equal; lra.
Qed.

Lemma sensitivity_two_trials_witness :
  sensitivity_analysis two_trials
  = mkFactors (Some 25%R) (Some 25%R) (Some 25%R) (Some 25%R).
Proof.
  apply (sensitivity_two_trials two_trials 54 (64152 / 1000) 0 2 (6 / 10) 1
           5 4 0 1); try reflexivity; try lra; lia.
Defined.

(** ** Contributions and correlations *)

Lemma Rabs_le_total (cs : list R) (c : R) :
  In c cs -> (Rabs c <= rsum (map Rabs cs))%R.
Proof.
  induction cs as [| x cs IH]; intros Hin; [contradiction |].
  cbn [map]. rewrite rsum_cons.
  assert (0 <= rsum (map Rabs cs))%R.
  { apply rsum_nonneg, Forall_forall. intros y Hy.
    apply in_map_iff in Hy as (z & <- & _). apply Rabs_pos. }
  pose proof (Rabs_pos x).
  destruct Hin as [-> | Hin]; [lra | specialize (IH Hin); lra].
Qed.

(** X10.  When the four correlations are defined and not all zero, each
    contribution is the factor's absolute correlation times one common
    positive scale: contributions lie between 0 and 100, a factor's
    contribution is 0 exactly when its correlation is 0, and contributions
    are ordered as the absolute correlations are, whatever their signs. *)
Theorem contributions_follow_correlations (self : CDSSStatisticalAnalysis xreal)
    (c1 c2 c3 c4 : R) :
  correlations self = mkFactors (Some c1) (Some c2) (Some c3) (Some c4) ->
  c1 <> 0%R \/ c2 <> 0%R \/ c3 <> 0%R \/ c4 <> 0%R ->
  exists p1 p2 p3 p4 : R,
    sensitivity_analysis self
    = mkFactors (Some p1) (Some p2) (Some p3) (Some p4)
    /\ forall i j : nat, (i < 4)%nat -> (j < 4)%nat ->
       let c := nth i [c1; c2; c3; c4] 0%R in
       let c' := nth j [c1; c2; c3; c4] 0%R in
       let p := nth i [p1; p2; p3; p4] 0%R in
       let p' := nth j [p1; p2; p3; p4] 0%R in
       (0 <= p <= 100)%R /\ (p = 0%R <-> c = 0%R)
       /\ (p <= p' <-> Rabs c <= Rabs c')%R.
Proof.
  intros Ec Hnz.
  set (cs := [c1; c2; c3; c4]).
  set (t := (0 + Rabs c1 + Rabs c2 + Rabs c3 + Rabs c4)%R).
  assert (Et : t = rsum (map Rabs cs)).
  { unfold cs, t. cbn [map]. rewrite !rsum_cons, rsum_nil. lra. }
  pose proof (Rabs_pos c1). pose proof (Rabs_pos c2).
  pose proof (Rabs_pos c3). pose proof (Rabs_pos c4).
  assert (Ht : (0 < t)%R).
  { unfold t. destruct Hnz as [Hc | [Hc | [Hc | Hc]]];
      apply Rabs_pos_lt in Hc; lra. }
  set (f := fun c : R => (Rabs c / t * 100)%R).
  exists (f c1), (f c2), (f c3), (f c4). split.
  - unfold sensitivity_analysis. rewrite Ec. apply normalize_exact. fold t. lra.
  - intros i j Hi Hj c c' p p'.
    assert (Ep : forall n, nth n [f c1; f c2; f c3; f c4] 0%R = f (nth n cs 0%R)).
    { intros n. change [f c1; f c2; f c3; f c4] with (map f cs).
      replace 0%R with (f 0%R) at 1; [apply map_nth |].
      unfold f. rewrite Rabs_R0. lra. }
    unfold p, p'. rewrite !Ep. fold c c'.
    assert (Hin : In c cs) by (apply nth_In; cbn; lia).
    pose proof (Rabs_le_total cs c Hin) as Hle. rewrite <- Et in Hle.
    pose proof (Rabs_pos c) as Hc. pose proof (Rabs_pos c') as Hc'.
    assert (Hinv : (0 < / t)%R) by now apply Rinv_0_lt_compat.
    assert (Hscale : forall a b : R, (a / t * 100 <= b / t * 100 <-> a <= b)%R).
    { intros a b. unfold Rdiv. split; intros Hab.
      - apply Rmult_le_reg_r with (/ t * 100)%R; [lra |]. lra.
      - apply Rmult_le_compat_r with (r := (/ t * 100)%R) in Hab; lra. }
    unfold f. repeat split.
    + apply (Hscale 0%R (Rabs c)) in Hc. lra.
    + apply (Hscale (Rabs c) t) in Hle.
      replace (t / t * 100)%R with 100%R in Hle by (field; lra). exact Hle.
    + intros Hp. 
      assert (Hz : (Rabs c <= 0)%R) by (apply (Hscale (Rabs c) 0%R); lra).
      destruct (Req_dec c 0) as [E | N]; [assumption |].
      apply Rabs_pos_lt in N. lra.
    + intros ->. rewrite Rabs_R0. lra.
    + apply Hscale.
    + apply Hscale.
Qed.

Lemma contributions_follow_correlations_witness :
  exists p1 p2 p3 p4 : R,
    sensitivity_analysis two_trials
    = mkFactors (Some p1) (Some p2) (Some p3) (Some p4)
    /\ (0 <= p1 <= 100)%R.
Proof.
  destruct (contributions_follow_correlations two_trials
              (rcorr [6 / 10; 1]%R [54; 64152 / 1000]%R)
              (rcorr [IZR 5; IZR 4] [54; 64152 / 1000]%R)
              (rcorr [IZR 0; IZR 1] [54; 64152 / 1000]%R)
              (rcorr [0; 2]%R [54; 64152 / 1000]%R))
    as (p1 & p2 & p3 & p4 & E & H).
  - unfold correlations, two_trials.
    cbn [results accuracy response_time data_completeness symptom_clarity
         workflow_variation].
    change (map of_Z [5; 4]%Z) with (map Some [IZR 5; IZR 4]).
    change (map of_Z [0; 1]%Z) with (map Some [IZR 0; IZR 1]).
    rewrite !np_corrcoef_exact by first [cbn; lia | rewrite rss_two; lra].
    reflexivity.
  - left. intros E.
    pose proof (rcorr_two (6 / 10) 1 54 (64152 / 1000)) as H.
    rewrite E, Rabs_R0 in H. lra.
  - exists p1, p2, p3, p4. split; [exact E |].
    apply (H 0%nat 0%nat); lia.
Defined.

(** ** The correlation is a number between -1 and 1 before clipping *)

Lemma rdot_cons (x y : R) (u v : list R) :
  rdot (x :: u) (y :: v) = (x * y + rdot u v)%R.
Proof. unfold rdot. cbn [combine map fst snd]. apply rsum_cons. Qed.

Lemma rdot_nil_r (u : list R) : rdot u [] = 0%R.
Proof. destruct u; reflexivity. Qed.

Lemma rdot_self_nonneg (u : list R) : (0 <= rdot u u)%R.
Proof.
  induction u as [| x u IH]; [unfold rdot, rsum; cbn; lra |].
  rewrite rdot_cons. nra.
Qed.

Lemma square_le (a b : R) : (0 <= b)%R -> (a * a <= b * b)%R -> (a <= b)%R.
Proof. intros Hb H. destruct (Rle_dec a b); [assumption | nra]. Qed.

(** Cauchy-Schwarz for the dot product of two lists. *)
Lemma rdot_cauchy_schwarz (u v : list R) :
  (rdot u v * rdot u v <= rdot u u * rdot v v)%R.
Proof.
  revert v. induction u as [| x u IH]; intros v.
  - unfold rdot at 1 2 3. cbn. unfold rsum. cbn. lra.
  - destruct v as [| y v].
    + rewrite rdot_nil_r. unfold rdot at 2. cbn. unfold rsum. cbn. lra.
    + rewrite !rdot_cons.
      pose proof (rdot_self_nonneg u) as HA.
      pose proof (rdot_self_nonneg v) as HB.
      specialize (IH v).
      set (A := rdot u u) in *. set (B := rdot v v) in *.
      set (C := rdot u v) in *.
      assert (H1 : (2 * (x * y * C) <= x * x * B + y * y * A)%R).
      { apply square_le.
        { apply Rplus_le_le_0_compat; apply Rmult_le_pos;
            try assumption; nra. }
        assert (Hxy : (0 <= (x * y) * (x * y))%R) by exact (Rle_0_sqr _).
        assert (H2 : ((x * y) * (x * y) * (C * C)
                      <= (x * y) * (x * y) * (A * B))%R)
          by (apply Rmult_le_compat_l; assumption).
        assert (H3 : (0 <= (x * x * B - y * y * A) * (x * x * B - y * y * A))%R)
          by exact (Rle_0_sqr _).
        nra. }
      nra.
Qed.

Lemma rcov_cauchy_schwarz (x y : list R) :
  length x = length y -> (2 <= length x)%nat ->
  (rcov x y * rcov x y <= rcov x x * rcov y y)%R.
Proof.
  intros Hl Hk. unfold rcov. rewrite <- Hl.
  assert (Hq : (0 < 1 / IZR (Z.of_nat (length x) - 1))%R).
  { assert (0 < IZR (Z.of_nat (length x) - 1))%R by (apply IZR_lt; lia).
    apply Rmult_lt_0_compat; [lra | now apply Rinv_0_lt_compat]. }
  pose proof (rdot_cauchy_schwarz (rdev x) (rdev y)) as H.
  set (q := (1 / IZR (Z.of_nat (length x) - 1))%R) in *.
  assert (0 <= q * q)%R by nra.
  nra.
Qed.

(** X11.  For two lists of k >= 2 values, neither constant, the correlation
    np.corrcoef computes is a defined number between -1 and 1 already
    before clipping: in exact arithmetic the final clip changes nothing
    and the result is covariance / (deviation * deviation). *)
Theorem corrcoef_unclipped (x y : list R) :
  length x = length y -> (2 <= length x)%nat ->
  (0 < rss x)%R -> (0 < rss y)%R ->
  let r := (rcov x y / R_sqrt.sqrt (rcov x x) / R_sqrt.sqrt (rcov y y))%R in
  (-1 <= r <= 1)%R
  /\ np_corrcoef (map Some x) (map Some y) = Some r.
Proof.
  intros Hl Hk Sx Sy r.
  assert (Hky : (2 <= length y)%nat) by lia.
  pose proof (rcov_self_pos x Hk Sx) as Vx.
  pose proof (rcov_self_pos y Hky Sy) as Vy.
  pose proof (sqrt_lt_R0 _ Vx) as Px. pose proof (sqrt_lt_R0 _ Vy) as Py.
  pose proof (sqrt_sqrt _ (Rlt_le _ _ Vx)) as Ex.
  pose proof (sqrt_sqrt _ (Rlt_le _ _ Vy)) as Ey.
  pose proof (rcov_cauchy_schwarz x y Hl Hk) as CS.
  assert (Hr2 : (r * r <= 1)%R).
  { unfold r.
    set (sx := R_sqrt.sqrt (rcov x x)) in *.
    set (sy := R_sqrt.sqrt (rcov y y)) in *.
    replace (rcov x y / sx / sy * (rcov x y / sx / sy))%R
      with (rcov x y * rcov x y / ((sx * sx) * (sy * sy)))%R by (field; lra).
    rewrite Ex, Ey.
    assert (Hv : (0 < rcov x x * rcov y y)%R) by now apply Rmult_lt_0_compat.
    apply Rmult_le_reg_r with (rcov x x * rcov y y)%R; [assumption |].
    unfold Rdiv. rewrite Rmult_assoc, Rinv_l by lra. lra. }
  assert (Hr : (-1 <= r <= 1)%R) by (split; nra).
  split; [exact Hr |].
  rewrite np_corrcoef_exact by assumption. f_equal.
  unfold rcorr, rclip. fold r.
  destruct (Rlt_dec r (-1)); [lra |]. destruct (Rlt_dec 1 r); [lra | reflexivity].
Qed.

Lemma corrcoef_unclipped_witness :
  exists r : R,
    np_corrcoef (map Some [6 / 10; 1]%R) (map Some [54; 64152 / 1000]%R) = Some r
    /\ (-1 <= r <= 1)%R.
Proof.
  destruct (corrcoef_unclipped [6 / 10; 1]%R [54; 64152 / 1000]%R)
    as [Hr E].
  - reflexivity.
  - cbn; lia.
  - rewrite rss_two; lra.
  - rewrite rss_two; lra.
  - eexists. split; [exact E | exact Hr].
Defined.

(** ** Simulated data stays inside the domains *)

Lemma raccuracy_range (dc rt : R) (sc wv : Z) :
  (6 / 10 <= dc <= 1)%R -> (1 <= sc <= 5)%Z -> (0 <= wv <= 7)%Z -> (0 <= rt)%R ->
  (9 <= raccuracy dc sc wv rt <= 90)%R.
Proof.
  intros Hdc [Hs1 Hs5] [Hw0 Hw7] Hrt. unfold raccuracy.
  pose proof (penalty_bounds rt Hrt) as Hp.
  apply IZR_le in Hs1, Hs5, Hw0, Hw7.
  set (p := Rmin (rt / 10) (1 / 10)) in *.
  set (s := IZR sc) in *. set (w := IZR wv) in *.
  assert (H1 : (6 / 10 * (1 / 5) <= dc * (s / 5) <= 1)%R) by nra.
  assert (H2 : (93 / 100 * (9 / 10) <= (1 - w * (1 / 100)) * (1 - p) <= 1)%R)
    by nra.
  assert (H3 : (6 / 10 * (1 / 5) * (93 / 100 * (9 / 10))
                <= dc * (s / 5) * ((1 - w * (1 / 100)) * (1 - p)) <= 1)%R) by nra.
  lra.
Qed.

Lemma range_bounds (n : nat) (z : Z) :
  In z (range n) -> (0 <= z < Z.of_nat n)%Z.
Proof.
  unfold range. intros H. apply in_map_iff in H as (i & <- & Hi).
  apply in_seq in Hi. lia.
Qed.

#[export] Instance stepper_legal : LegalSource Z.
Proof.
  constructor.
  - intros lo hi g H. cbn. eexists. split; [reflexivity |].
    pose proof (Z.mod_pos_bound g 4 ltac:(lia)) as [H0 H4].
    apply IZR_le in H0. apply IZR_lt in H4.
    set (t := IZR (g mod 4)) in *. nra.
  - intros lo hi g H. cbn.
    pose proof (Z.mod_pos_bound g (hi - lo) ltac:(lia)). lia.
  - intros l g Hl. cbn. apply nth_In.
    assert (0 < Z.of_nat (length l))%Z by (destruct l; [congruence | cbn; lia]).
    pose proof (Z.mod_pos_bound g (Z.of_nat (length l)) ltac:(lia)). lia.
  - intros s g Hs. cbn. eexists. split; [reflexivity |].
    pose proof (Z.mod_pos_bound g 3 ltac:(lia)) as [H0 _].
    apply IZR_le in H0. nra.
Qed.

Section Legal.

Context {G : Type} `{LS : LegalSource G}.

Lemma iteration_legal (r : Results xreal) (g : G) :
  legal_results r -> legal_results (fst (iteration r g)).
Proof.
  intros (Ha & Ht & Hd & Hs & Hw). unfold iteration. xlit.
  destruct (uniform_range (6 / 10) 1 g ltac:(lra)) as (dc & Edc & Hdc).
  destruct (random_uniform (Some (6 / 10)%R) (Some 1%R) g) as [vdc g1];
    cbn [fst] in Edc; subst vdc.
  pose proof (randint_range 1 6 g1 ltac:(lia)) as Hsc.
  destruct (random_randint 1 6 g1) as [sc g2]; cbn [fst] in Hsc.
  pose proof (choice_member (range 8) g2 ltac:(discriminate)) as Hwv.
  destruct (random_choice (range 8) g2) as [wv g3]; cbn [fst] in Hwv.
  apply range_bounds in Hwv.
  destruct (exponential_nonneg 2 g3 ltac:(lra)) as (rt & Ert & Hrt).
  destruct (random_exponential (Some 2%R) g3) as [vrt g4];
    cbn [fst] in Ert; subst vrt.
  cbn [fst]. unfold legal_results.
  cbn [accuracy response_time data_completeness symptom_clarity
       workflow_variation].
  rewrite accuracy_percent_raccuracy.
  assert (Hone : forall (T : Type) (P : T -> Prop) (l : list T) (x : T),
             Forall P l -> P x -> Forall P (l ++ [x])).
  { intros T P l x Hl Hx. apply Forall_app. split; [assumption |].
    now constructor. }
  split; [| split; [| split; [| split]]]; apply Hone; try assumption.
  - eexists. split; [reflexivity |].
    apply raccuracy_range; [assumption | lia | cbn in Hwv; lia | assumption].
  - eexists. split; [reflexivity | assumption].
  - eexists. split; [reflexivity | assumption].
  - lia.
  - cbn in Hwv. lia.
Qed.

Lemma iterations_legal (n : nat) (r : Results xreal) (g : G) :
  legal_results r -> legal_results (fst (iterations n r g)).
Proof.
  revert r g. induction n as [| n IH]; intros r g Hr; cbn [iterations].
  - assumption.
  - pose proof (iteration_legal r g Hr) as H1.
    destruct (iteration r g) as [r1 g1]. now apply IH.
Qed.

Lemma simulate_times_legal (m : nat) (self : CDSSStatisticalAnalysis xreal) (g : G) :
  legal_results (results self) ->
  legal_results (results (fst (simulate_times m self g))).
Proof.
  revert self g. induction m as [| m IH]; intros self g Hr; cbn [simulate_times].
  - assumption.
  - unfold simulate_diagnostic_accuracy.
    pose proof (iterations_legal (n_iterations self) (results self) g Hr) as H1.
    destruct (iterations (n_iterations self) (results self) g) as [r1 g1].
    apply IH. exact H1.
Qed.

(** X12.  With a generator that keeps numpy's documented ranges, the
    simulation only ever stores legal data: after any number of calls on a
    fresh object every data_completeness is in [0.6, 1], every
    symptom_clarity in 1..5, every workflow_variation in 0..7, every
    response_time is non-negative, and every accuracy lies in [9, 90]. *)
Theorem simulation_stores_legal_data (m : nat) (g : G) :
  legal_results (results (fst (simulate_times m init g))).
Proof.
  apply simulate_times_legal. repeat split; constructor.
Qed.

Lemma list_upper_bound (l : list R) (lo : R) :
  Forall (fun x => lo <= x)%R l ->
  exists hi, Forall (fun x => lo <= x <= hi)%R l.
Proof.
  induction 1 as [| x l Hx _ (hi & IH)].
  - exists lo. constructor.
  - exists (Rmax x hi). constructor.
    + split; [assumption | apply Rmax_l].
    + eapply Forall_impl; [| exact IH]. cbn. intros y Hy.
      pose proof (Rmax_r x hi). lra.
Qed.

(** X13.  The pipeline of [main]: after at least one call of the
    simulation on a fresh object, with a generator that keeps numpy's
    documented ranges, calculate_statistics returns a report (the index
    error of empty data cannot occur), its mean accuracy lies in [9, 90]
    and its 99th-percentile response time is not negative. *)
Theorem simulated_statistics_in_range (m : nat) (g : G) (ndtri : xreal -> xreal) :
  (1 <= m)%nat ->
  exists rep mu p,
    calculate_statistics ndtri (fst (simulate_times m init g)) = Returned rep
    /\ mean_accuracy rep = Some mu /\ (9 <= mu <= 90)%R
    /\ percentile_99_response rep = Some p /\ (0 <= p)%R.
Proof.
  intros Hm.
  set (self := fst (simulate_times m init g)).
  destruct (simulate_times_legal m init g) as (Ha & Ht & _);
    [repeat split; constructor |].
  fold self in Ha, Ht.
  destruct (simulate_times_lengths m init g 0) as (_ & La & Lt & _);
    [repeat split |].
  fold self in La, Lt.
  destruct (defined_list _ _ Ha) as (accs & Eacc & Hacc).
  destruct (defined_list _ _ Ht) as (rts & Ert & Hrt).
  change (n_iterations init) with (Z.to_nat 10000) in La, Lt.
  assert (Hne : accs <> []).
  { intros ->. rewrite Eacc in La. cbn in La. lia. }
  assert (Hrne : rts <> []).
  { intros ->. rewrite Ert in Lt. cbn in Lt. lia. }
  destruct (calculate_statistics_report self accs rts ndtri Eacc Ert Hne Hrne)
    as (a & P & _ & Hane & E).
  destruct (list_upper_bound rts 0 Hrt) as (hi & Hb).
  eexists _, _, _. split; [exact E |].
  cbn [mean_accuracy percentile_99_response].
  split; [reflexivity |]. split; [now apply rmean_bounds |].
  split; [reflexivity |].
  apply (interpolated_99_bounds a 0 hi Hane). now rewrite <- P.
Qed.

End Legal.

Lemma simulation_stores_legal_data_witness :
  legal_results (results (fst (simulate_times 2 init 0%Z))).
Proof. apply (simulation_stores_legal_data (G := Z) 2 0%Z). Defined.

Lemma simulated_statistics_in_range_witness :
  exists rep mu p,
    calculate_statistics ndtri_table (fst (simulate_times 1 init 0%Z))
    = Returned rep
    /\ mean_accuracy rep = Some mu /\ (9 <= mu <= 90)%R
    /\ percentile_99_response rep = Some p /\ (0 <= p)%R.
Proof.
  apply (simulated_statistics_in_range (G := Z) 1 0%Z ndtri_table). lia.
Defined.
